(** * scripts/screenshot.js: rendering docs/index.html to docs/aca_map.png

    A shallow embedding of the capture script and of the parts of its
    run-time environment (Node's [parseInt], [parseFloat], [path.resolve],
    [path.join], [process.exit], and the puppeteer calls) that its behaviour
    depends on, followed by the properties of the script.

    Conventions.
    - A JavaScript string is a [string] whose characters are code units
      below 256; the white space that [parseInt] and [parseFloat] skip is
      the white space in that range.
    - A JavaScript number is a [Num]: [NaN], an infinity, minus zero, or a
      finite binary64 value held as a reduced fraction.  [parseInt] and
      [parseFloat] round the value they read to the nearest binary64
      value, ties to even. *)

From Stdlib Require Import ZArith QArith Qpower Ascii String List Lia Bool.
From stdpp Require Import base gmap strings list.

Local Open Scope Z_scope.

(** ** JavaScript numbers and values *)

Inductive Num : Type :=
| NaN
| Inf (negative : bool)
| NegZero                       (* -0 *)
| Fin (q : Q).                  (* +0 and the other finite values *)

Definition num_of_Z (z : Z) : Num := Fin (inject_Z z).

Definition Qis_zero (q : Q) : bool := Z.eqb (Qnum q) 0.

Definition signed (negative : bool) (z : Z) : Z :=
  if negative then - z else z.

(** Rounding of a fraction to binary64. *)
Module Binary64.

(** The integer nearest to [n / d], the even one of two that are equally
    near ([0 <= n], [0 < d]). *)
Definition half_even (n d : Z) : Z :=
  let q := n / d in
  let r := n mod d in
  if 2 * r <? d then q
  else if d <? 2 * r then q + 1
  else if Z.even q then q else q + 1.

(** The [b] with [2 ^ b <= n / d < 2 ^ (b + 1)] ([0 < n], [0 < d]). *)
Definition binade (n d : Z) : Z :=
  let e := Z.log2 n - Z.log2 d in
  let below :=
    if 0 <=? e then n <? d * 2 ^ e else n * 2 ^ (- e) <? d in
  if below then e - 1 else e.

Definition zero (negative : bool) : Num :=
  if negative then NegZero else Fin 0.

(** The binary64 value nearest to [n / d] ([0 <= n], [0 < d]), ties to
    even, with the sign asked for: 53 bits of precision, exponents of the
    last bit from -1074 up, and an infinity from [2 ^ 1024] on. *)
Definition round (negative : bool) (n d : Z) : Num :=
  if n =? 0 then zero negative
  else
    let e := Z.max (binade n d - 52) (-1074) in
    let m :=
      if 0 <=? e then half_even n (d * 2 ^ e)
      else half_even (n * 2 ^ (- e)) d in
    if m =? 0 then zero negative
    else if (0 <=? e) && (2 ^ 1024 <=? m * 2 ^ e) then Inf negative
    else Fin (Qred (Qmult (inject_Z (signed negative m))
                          (Qpower (inject_Z 2) e))).

End Binary64.

(** The value of a finite number. *)
Definition value_of (n : Num) : option Q :=
  match n with
  | Fin q => Some q
  | NegZero => Some (inject_Z 0)
  | NaN | Inf _ => None
  end.

(** The whole number that a fraction is, when it is one. *)
Definition whole_of (q : Q) : option Z :=
  let r := Qred q in
  if Z.eqb (Z.pos (Qden r)) 1 then Some (Qnum r) else None.

(** A finite number that is a whole number. *)
Definition whole (n : Num) : option Z :=
  match value_of n with
  | Some q => whole_of q
  | None => None
  end.

(** [css * scale] when that is a whole number: a length in CSS pixels
    that falls on whole device pixels at that scale.  The product is the
    exact one. *)
Definition device_px (css scale : Num) : option Z :=
  match value_of css, value_of scale with
  | Some c, Some s => whole_of (Qmult c s)
  | _, _ => None
  end.

(** The size in pixels of a capture that starts at [offset] and spans
    [extent] CSS pixels, when both are whole numbers of CSS pixels that
    fall on whole device pixels, and the span is positive.  Otherwise the
    size depends on how puppeteer and the browser round the clip, which
    the script does not fix: [None]. *)
Definition pixel_size (offset extent scale : Num) : option Z :=
  match whole offset, whole extent,
        device_px offset scale, device_px extent scale with
  | Some _, Some _, Some _, Some z => if 0 <? z then Some z else None
  | _, _, _, _ => None
  end.

(** The values a page can hold in a global; an object is its own
    properties, in insertion order. *)
#[warnings="-register-all"] Inductive JsValue : Type :=
| Undefined
| Null
| Boolean (b : bool)
| Number (n : Num)
| Str (s : string)
| Object (props : list (string * JsValue)).

(** ToBoolean. *)
Definition truthy (v : JsValue) : bool :=
  match v with
  | Undefined | Null => false
  | Boolean b => b
  | Number NaN => false
  | Number (Inf _) => true
  | Number NegZero => false
  | Number (Fin q) => negb (Qis_zero q)
  | Str s => negb (String.eqb s "")
  | Object _ => true
  end.

Fixpoint assoc (k : string) (l : list (string * JsValue)) : option JsValue :=
  match l with
  | [] => None
  | (k', v) :: l' => if String.eqb k k' then Some v else assoc k l'
  end.

(** [v.k]: [None] is the TypeError of reading a property of [undefined]
    or [null]; a missing property reads as [undefined]. *)
Definition get_prop (v : JsValue) (k : string) : option JsValue :=
  match v with
  | Undefined | Null => None
  | Object props => Some (default Undefined (assoc k props))
  | _ => Some Undefined
  end.

(** [k in v] for an object. *)
Definition has_prop (v : JsValue) (k : string) : bool :=
  match v with
  | Object props => bool_decide (is_Some (assoc k props))
  | _ => false
  end.

(** ** Strings: the scanning that parseInt and parseFloat do *)

Module Scan.

Definition code (c : ascii) : Z := Z.of_nat (nat_of_ascii c).

(** WhiteSpace and LineTerminator code units below 256. *)
Definition is_white (c : ascii) : bool :=
  let n := code c in
  ((9 <=? n) && (n <=? 13)) || (n =? 32) || (n =? 160).

(** The value of [c] as a digit in some radix up to 36. *)
Definition digit_of (c : ascii) : option Z :=
  let n := code c in
  if (48 <=? n) && (n <=? 57) then Some (n - 48)
  else if (97 <=? n) && (n <=? 122) then Some (n - 87)
  else if (65 <=? n) && (n <=? 90) then Some (n - 55)
  else None.

Definition is_radix_digit (R : Z) (c : ascii) : bool :=
  match digit_of c with
  | Some d => d <? R
  | None => false
  end.

Definition is_digit (c : ascii) : bool := is_radix_digit 10 c.

Definition digit_val (c : ascii) : Z := default 0 (digit_of c).

Fixpoint trim_start (s : string) : string :=
  match s with
  | String c s' => if is_white c then trim_start s' else s
  | EmptyString => s
  end.

(** A leading [+] or [-] is taken off; the flag says it was a [-]. *)
Definition strip_sign (s : string) : bool * string :=
  match s with
  | String c s' =>
      if Ascii.eqb c "-" then (true, s')
      else if Ascii.eqb c "+" then (false, s')
      else (false, s)
  | EmptyString => (false, s)
  end.

(** The longest run of radix-[R] digits at the front, and what follows. *)
Fixpoint span_digits (R : Z) (s : string) : list ascii * string :=
  match s with
  | String c s' =>
      if is_radix_digit R c
      then let '(ds, rest) := span_digits R s' in (c :: ds, rest)
      else ([], s)
  | EmptyString => ([], s)
  end.

Definition digits_value (R : Z) (ds : list ascii) : Z :=
  fold_left (fun acc c => acc * R + digit_val c) ds 0.

Fixpoint starts_with (p s : string) : bool :=
  match p, s with
  | EmptyString, _ => true
  | String a p', String b s' => Ascii.eqb a b && starts_with p' s'
  | String _ _, EmptyString => false
  end.

Fixpoint drop (n : nat) (s : string) : string :=
  match n, s with
  | S n', String _ s' => drop n' s'
  | _, _ => s
  end.

End Scan.

Import Scan.

(** [parseInt(s, radix)] for an integral [radix]. *)
Definition parseInt (s : string) (radix : Z) : Num :=
  let '(neg, s1) := strip_sign (trim_start s) in
  let strip := (radix =? 0) || (radix =? 16) in
  let R := if radix =? 0 then 10 else radix in
  if (R <? 2) || (36 <? R) then NaN
  else
    let hex := strip && (starts_with "0x" s1 || starts_with "0X" s1) in
    let s2 := if hex then drop 2 s1 else s1 in
    let R := if hex then 16 else R in
    match span_digits R s2 with
    | ([], _) => NaN
    | (ds, _) => Binary64.round neg (digits_value R ds) 1
    end.

(** The ExponentPart of a decimal literal, when there is a well-formed one
    at the front of [s]; 0 otherwise (the literal ends before it). *)
Definition exponent_part (s : string) : Z :=
  match s with
  | String c s' =>
      if Ascii.eqb c "e" || Ascii.eqb c "E" then
        let '(neg, s'') := strip_sign s' in
        match span_digits 10 s'' with
        | ([], _) => 0
        | (ds, _) => signed neg (digits_value 10 ds)
        end
      else 0
  | EmptyString => 0
  end.

(** [parseFloat(s)]: the value of the longest prefix of the trimmed string
    that is a StrDecimalLiteral. *)
Definition parseFloat (s : string) : Num :=
  let '(neg, s1) := strip_sign (trim_start s) in
  if starts_with "Infinity" s1 then Inf neg
  else
    let '(ip, r1) := span_digits 10 s1 in
    let '(fp, r2) :=
      match r1 with
      | String c r => if Ascii.eqb c "." then span_digits 10 r else ([], r1)
      | EmptyString => ([], r1)
      end in
    match ip ++ fp with
    | [] => NaN
    | ds =>
        let m := digits_value 10 ds in
        let e := exponent_part r2 - Z.of_nat (length fp) in
        if 0 <=? e then Binary64.round neg (m * 10 ^ e) 1
        else Binary64.round neg m (10 ^ (- e))
    end.


(** ** Node's path module (POSIX flavour) *)

Module Path.

(** [s.split("/")]. *)
Fixpoint split (s : string) : list string :=
  match s with
  | EmptyString => [EmptyString]
  | String c s' =>
      if Ascii.eqb c "/" then EmptyString :: split s'
      else match split s' with
           | seg :: segs => String c seg :: segs
           | [] => [String c EmptyString]
           end
  end.

(** [segs.join("/")]. *)
Fixpoint join_segs (segs : list string) : string :=
  match segs with
  | [] => ""
  | [seg] => seg
  | seg :: rest => seg +:+ "/" +:+ join_segs rest
  end.

(** The loop of normalizeString, one segment at a time; [res] holds the
    segments kept so far, the last one first. *)
Fixpoint normalize_segs (allowAboveRoot : bool) (res segs : list string)
  : list string :=
  match segs with
  | [] => res
  | seg :: rest =>
      if String.eqb seg "" || String.eqb seg "." then
        normalize_segs allowAboveRoot res rest
      else if String.eqb seg ".." then
        match res with
        | last :: res' =>
            if String.eqb last ".." then
              normalize_segs allowAboveRoot
                (if allowAboveRoot then ".." :: res else res) rest
            else normalize_segs allowAboveRoot res' rest
        | [] =>
            normalize_segs allowAboveRoot
              (if allowAboveRoot then [".."] else []) rest
        end
      else normalize_segs allowAboveRoot (seg :: res) rest
  end.

Definition normalizeString (path : string) (allowAboveRoot : bool) : string :=
  join_segs (rev (normalize_segs allowAboveRoot [] (split path))).

Definition isAbsolute (path : string) : bool := starts_with "/" path.

Fixpoint ends_with_slash (s : string) : bool :=
  match s with
  | EmptyString => false
  | String c EmptyString => Ascii.eqb c "/"
  | String _ s' => ends_with_slash s'
  end.

Definition normalize (path : string) : string :=
  if String.eqb path "" then "."
  else
    let isAbs := isAbsolute path in
    let trailingSeparator := ends_with_slash path in
    let p := normalizeString path (negb isAbs) in
    if String.eqb p "" then
      if isAbs then "/" else if trailingSeparator then "./" else "."
    else
      let p := if trailingSeparator then p +:+ "/" else p in
      if isAbs then "/" +:+ p else p.

Definition nonempty (s : string) : bool := negb (String.eqb s "").

Definition join (args : list string) : string :=
  match List.filter nonempty args with
  | [] => "."
  | parts => normalize (join_segs parts)
  end.

(** The loop of [resolve], from the last argument to the first and then
    the working directory, until an absolute path has been seen. *)
Fixpoint resolve_loop (cwd : string) (rargs : list string)
    (resolvedPath : string) : string * bool :=
  match rargs with
  | [] =>
      if String.eqb cwd "" then (resolvedPath, false)
      else (cwd +:+ "/" +:+ resolvedPath, isAbsolute cwd)
  | path :: rest =>
      if String.eqb path "" then resolve_loop cwd rest resolvedPath
      else
        let resolvedPath := path +:+ "/" +:+ resolvedPath in
        if isAbsolute path then (resolvedPath, true)
        else resolve_loop cwd rest resolvedPath
  end.

Definition resolve (cwd : string) (args : list string) : string :=
  let '(resolvedPath, resolvedAbsolute) := resolve_loop cwd (rev args) "" in
  let resolvedPath := normalizeString resolvedPath (negb resolvedAbsolute) in
  if resolvedAbsolute then "/" +:+ resolvedPath
  else if String.eqb resolvedPath "" then "." else resolvedPath.

(** A segment that normalisation keeps as it is. *)
Definition plain (seg : string) : bool :=
  negb (String.eqb seg "" || String.eqb seg "." || String.eqb seg "..").

Fixpoint has_slash (s : string) : bool :=
  match s with
  | EmptyString => false
  | String c s' => Ascii.eqb c "/" || has_slash s'
  end.

Definition no_slash (seg : string) : Prop := has_slash seg = false.

(** The segments of the directory above [d], the last one first. *)
Definition parent_segs (d : string) : list string :=
  normalize_segs false [] (split d ++ [".."]).

End Path.

(** ** The page, as the script observes it *)

Record Element : Type := {
  classes : list string;      (* the element's class list *)
  complete : bool;            (* ToBoolean of its [complete] property *)
  box_x : Num;                (* bounding box, CSS pixels *)
  box_y : Num;
  box_width : Num;
  box_height : Num
}.

Record Page : Type := {
  ACA_DB : JsValue;           (* window.ACA_DB, [Undefined] when not set *)
  elements : list Element     (* the document's elements, in order *)
}.

Definition has_class (cls : string) (el : Element) : bool :=
  existsb (String.eqb cls) (classes el).

(** [document.querySelectorAll(sel)] for the class selectors the script
    uses. *)
Definition querySelectorAll (sel : string) (p : Page) : list Element :=
  match sel with
  | String "." cls => List.filter (has_class cls) (elements p)
  | _ => []
  end.

(** [a && b]: [b] is only evaluated when [a] is truthy. *)
Definition js_and (a : option JsValue) (b : option JsValue) : option JsValue :=
  match a with
  | Some v => if truthy v then b else Some v
  | None => None
  end.

(** The functions the script ships into the page.  [None] is an exception
    thrown in the page. *)
Inductive PageFn : Type := ReadyFn | TilesFn | ResizeFn.

Definition page_fn (f : PageFn) (p : Page) : option JsValue :=
  match f with
  | ReadyFn =>
      js_and (Some (ACA_DB p))
        (js_and (get_prop (ACA_DB p) "latest")
           (Some (Boolean
              (0 <? Z.of_nat (length (querySelectorAll ".iata-tt" p))))))
  | TilesFn =>
      Some (Boolean (forallb complete (querySelectorAll ".leaflet-tile" p)))
  | ResizeFn => Some (Boolean true)
  end.

(** ** Effects: trace, file system, completions *)

Inductive Error : Type :=
| TimeoutError (ms : Z)             (* puppeteer's, for a wait of [ms] *)
| JsError (message : string)        (* [new Error(message)] *)
| PageError                         (* an exception thrown in the page *)
| BrowserError (message : string).  (* any other rejection by the browser *)

Record Viewport : Type := {
  width : Num;
  height : Num;
  deviceScaleFactor : Num
}.

Record LaunchOptions : Type := {
  headless : bool;
  args : list string;
  defaultViewport : Viewport
}.

Inductive ImageType : Type := Png | Jpeg | Webp.

Record Image : Type := {
  image_type : ImageType;
  image_width : option Z;     (* pixels, see [pixel_size] *)
  image_height : option Z;
  image_of : Element          (* the element the capture was clipped to *)
}.

Inductive File : Type :=
| Document                    (* a file whose content the script never reads *)
| Picture (img : Image).

Inductive Event : Type :=
| ExistsSync (path : string)
| ConsoleError (message : string) (detail : option Error)
| ConsoleLog (message : string) (detail : string)
| ProcessExit (exit_code : Z)
| Launch (opts : LaunchOptions)
| NewPage
| Goto (url : string) (waitUntil : string) (timeout : Z)
| WaitForSelector (sel : string) (timeout : Z)
| WaitForFunction (f : PageFn) (timeout : Z)
| Sleep (ms : Z)
| Evaluate (f : PageFn)
| Query (sel : string)
| ElementScreenshot (el : Element) (path : string)
| BrowserClose.

Record St : Type := {
  trace : list Event;             (* what was done, oldest first *)
  files : gmap string File        (* the file system *)
}.

(** How a piece of script ends: normally, by a throw, or with the process
    gone ([process.exit] does not return). *)
Inductive Completion (A : Type) : Type :=
| Normal (a : A)
| Throw (e : Error)
| Exit (exit_code : Z).
Arguments Normal {A} a.
Arguments Throw {A} e.
Arguments Exit {A} exit_code.

Definition M (A : Type) : Type := St -> St * Completion A.

#[global] Instance M_ret : MRet M := fun A a s => (s, Normal a).

#[global] Instance M_bind : MBind M := fun A B k m s =>
  match m s with
  | (s', Normal a) => k a s'
  | (s', Throw e) => (s', Throw e)
  | (s', Exit c) => (s', Exit c)
  end.

Definition emit (ev : Event) : M unit := fun s =>
  ({| trace := trace s ++ [ev]; files := files s |}, Normal tt).

Definition throw {A : Type} (e : Error) : M A := fun s => (s, Throw e).

(** A call that the outside world lets succeed or fail. *)
Definition attempt (failure : option Error) : M unit :=
  match failure with
  | Some e => throw e
  | None => mret tt
  end.

(** [try { body } catch (e) { handler } finally { finalizer }].  When the
    body or the handler ends the process, nothing more runs. *)
Definition try_catch_finally
    (body : M unit) (handler : Error -> M unit) (finalizer : M unit)
  : M unit := fun s =>
  let '(s1, c1) := body s in
  let '(s2, c2) :=
    match c1 with
    | Throw e => handler e s1
    | _ => (s1, c1)
    end in
  match c2 with
  | Exit c => (s2, Exit c)
  | _ =>
      match finalizer s2 with
      | (s3, Normal _) => (s3, c2)
      | (s3, c3) => (s3, c3)
      end
  end.

(** ** Node and puppeteer *)

Definition existsSync (path : string) : M bool := fun s =>
  ({| trace := trace s ++ [ExistsSync path]; files := files s |},
   Normal (bool_decide (is_Some (files s !! path)))).

Definition console_error (message : string) (detail : option Error) : M unit :=
  emit (ConsoleError message detail).

Definition console_log (message detail : string) : M unit :=
  emit (ConsoleLog message detail).

Definition process_exit {A : Type} (exit_code : Z) : M A := fun s =>
  ({| trace := trace s ++ [ProcessExit exit_code]; files := files s |},
   Exit exit_code).

Definition sleep (ms : Z) : M unit := emit (Sleep ms).

Definition write_file (path : string) (f : File) : M unit := fun s =>
  ({| trace := trace s; files := <[path := f]> (files s) |}, Normal tt).

Record Browser : Type := { browser_viewport : Viewport }.
Record PageHandle : Type := { page_browser : Browser }.
Record ElementHandle : Type := {
  handle_element : Element;
  handle_page : PageHandle
}.

(** What the browser, the page and the machine do during one run. *)
Record World : Type := {
  dirname : string;               (* __dirname of the script *)
  cwd : string;                   (* process.cwd() *)
  argv : list string;             (* process.argv *)
  env : gmap string string;       (* process.env *)
  disk : gmap string File;        (* the file system at start *)
  launch_failure : option Error;
  newPage_failure : option Error;
  goto_failure : option Error;    (* e.g. no load event within the bound *)
  mount_polls : list Page;        (* the page at each poll of the selector
                                     wait that falls within its bound *)
  ready_polls : list Page;        (* the same for the readiness wait *)
  tile_polls : list Page;         (* the same for the tile wait *)
  evaluate_failure : option Error;
  settled_page : Page;            (* the page when the element is looked
                                     up again *)
  screenshot_failure : option Error;
  close_failure : option Error
}.

Definition launch (w : World) (opts : LaunchOptions) : M Browser :=
  emit (Launch opts) ;; attempt (launch_failure w) ;;
  mret {| browser_viewport := defaultViewport opts |}.

Definition newPage (w : World) (b : Browser) : M PageHandle :=
  emit NewPage ;; attempt (newPage_failure w) ;;
  mret {| page_browser := b |}.

Definition goto (w : World) (pg : PageHandle)
    (url waitUntil : string) (timeout : Z) : M unit :=
  emit (Goto url waitUntil timeout) ;; attempt (goto_failure w).

(** One bounded wait: the polls are tried in order and the first page on
    which the test is truthy ends the wait; with none, the wait times out.
    An exception in the page rejects the wait. *)
Fixpoint poll (test : Page -> option JsValue) (timeout : Z)
    (polls : list Page) : option Error :=
  match polls with
  | [] => Some (TimeoutError timeout)
  | p :: rest =>
      match test p with
      | None => Some PageError
      | Some v => if truthy v then None else poll test timeout rest
      end
  end.

Definition selector_test (sel : string) (p : Page) : option JsValue :=
  Some (Boolean (0 <? Z.of_nat (length (querySelectorAll sel p)))).

Definition waitForSelector (w : World) (pg : PageHandle)
    (sel : string) (timeout : Z) : M unit :=
  emit (WaitForSelector sel timeout) ;;
  attempt (poll (selector_test sel) timeout (mount_polls w)).

(** The polls a wait on [f] sees (the script waits on the first two
    functions only). *)
Definition polls_of (w : World) (f : PageFn) : list Page :=
  match f with
  | ReadyFn => ready_polls w
  | TilesFn => tile_polls w
  | ResizeFn => []
  end.

Definition waitForFunction (w : World) (pg : PageHandle)
    (f : PageFn) (timeout : Z) : M unit :=
  emit (WaitForFunction f timeout) ;;
  attempt (poll (page_fn f) timeout (polls_of w f)).

Definition evaluate (w : World) (pg : PageHandle) (f : PageFn) : M unit :=
  emit (Evaluate f) ;; attempt (evaluate_failure w).

(** [page.$(sel)]: the first match, or null. *)
Definition query (w : World) (pg : PageHandle) (sel : string)
  : M (option ElementHandle) :=
  emit (Query sel) ;;
  mret ((fun el => {| handle_element := el; handle_page := pg |})
          <$> head (querySelectorAll sel (settled_page w))).

Fixpoint ends_with (suffix s : string) : bool :=
  String.eqb suffix s ||
  match s with
  | String _ s' => ends_with suffix s'
  | EmptyString => false
  end.

(** The image type puppeteer infers from the file name. *)
Definition image_type_of (path : string) : ImageType :=
  if ends_with ".jpg" path || ends_with ".jpeg" path then Jpeg
  else if ends_with ".webp" path then Webp
  else Png.

(** What a capture of [h] holds: the element's box at the page's scale. *)
Definition capture (h : ElementHandle) (path : string) : Image :=
  let scale := deviceScaleFactor (browser_viewport (page_browser (handle_page h))) in
  {| image_type := image_type_of path;
     image_width :=
       pixel_size (box_x (handle_element h)) (box_width (handle_element h))
         scale;
     image_height :=
       pixel_size (box_y (handle_element h)) (box_height (handle_element h))
         scale;
     image_of := handle_element h |}.

(** [el.screenshot({ path })]: the file is written when the call succeeds
    and left alone when it fails. *)
Definition screenshot (w : World) (h : ElementHandle) (path : string) : M unit :=
  emit (ElementScreenshot (handle_element h) path) ;;
  attempt (screenshot_failure w) ;;
  write_file path (Picture (capture h path)).

Definition close (w : World) (b : Browser) : M unit :=
  emit BrowserClose ;; attempt (close_failure w).

(** ** scripts/screenshot.js *)

(** [x || d] for an environment variable [x]. *)
Definition or_default (x : option string) (d : string) : string :=
  match x with
  | Some s => if String.eqb s "" then d else s
  | None => d
  end.

Definition repoRoot (w : World) : string :=
  Path.resolve (cwd w) [dirname w; ".."].
Definition input (w : World) : string :=
  Path.join [repoRoot w; "docs"; "index.html"].
Definition output (w : World) : string :=
  Path.join [repoRoot w; "docs"; "aca_map.png"].

Definition WIDTH (w : World) : Num :=
  parseInt (or_default (env w !! "PNG_W") "2400") 10.
Definition HEIGHT (w : World) : Num :=
  parseInt (or_default (env w !! "PNG_H") "1600") 10.
Definition SCALE (w : World) : Num :=
  parseFloat (or_default (env w !! "PNG_SCALE") "2").

Definition launch_options (w : World) : LaunchOptions :=
  {| headless := true;
     args := ["--no-sandbox"; "--disable-setuid-sandbox";
              "--allow-file-access-from-files"];
     defaultViewport :=
       {| width := WIDTH w; height := HEIGHT w;
          deviceScaleFactor := SCALE w |} |}.

Definition main (w : World) : M unit :=
  found ← existsSync (input w);
  (if negb found then
     console_error "Missing docs/index.html. Run generate_map.py first." None ;;
     process_exit 1
   else mret tt) ;;
  browser ← launch w (launch_options w);
  try_catch_finally
    (page ← newPage w browser;
     let url := "file://" +:+ input w in
     goto w page url "load" 120000 ;;
     waitForSelector w page ".leaflet-container" 60000 ;;
     waitForFunction w page ReadyFn 60000 ;;
     waitForFunction w page TilesFn 60000 ;;
     sleep 600 ;;
     evaluate w page ResizeFn ;;
     sleep 100 ;;
     mapEl ← query w page ".leaflet-container";
     match mapEl with
     | None => throw (JsError "Leaflet map element not found.")
     | Some mapEl =>
         screenshot w mapEl (output w) ;;
         console_log "Wrote" (output w)
     end)
    (fun e => console_error "Screenshot failed:" (Some e) ;; process_exit 1)
    (close w browser).

(** How the process ends: [process.exit], the async function's promise
    fulfilled, or that promise rejected with nobody handling it.  In the
    last case it is Node that writes the error to the standard error, and
    ends the process with code 1. *)
Inductive Status : Type :=
| Exited (exit_code : Z)
| Completed
| Rejected (e : Error).

Definition status_of (c : Completion unit) : Status :=
  match c with
  | Normal _ => Completed
  | Throw e => Rejected e
  | Exit n => Exited n
  end.

(** The process's exit code (an unhandled rejection ends Node with 1). *)
Definition exit_code_of (st : Status) : Z :=
  match st with
  | Exited n => n
  | Completed => 0
  | Rejected _ => 1
  end.

Definition run (w : World) : St * Completion unit :=
  main w {| trace := []; files := disk w |}.

Definition run_trace (w : World) : list Event := trace (fst (run w)).
Definition run_files (w : World) : gmap string File := files (fst (run w)).
Definition run_status (w : World) : Status := status_of (snd (run w)).

(** ** The steps of a run and what can go wrong in each *)

Definition input_exists (w : World) : bool :=
  bool_decide (is_Some (disk w !! input w)).

(** How the three waits of a run end, and what the second look-up of the
    map container finds. *)
Definition mount_wait (w : World) : option Error :=
  poll (selector_test ".leaflet-container") 60000 (mount_polls w).
Definition ready_wait (w : World) : option Error :=
  poll (page_fn ReadyFn) 60000 (ready_polls w).
Definition tile_wait (w : World) : option Error :=
  poll (page_fn TilesFn) 60000 (tile_polls w).
Definition mapEl (w : World) : option Element :=
  head (querySelectorAll ".leaflet-container" (settled_page w)).

Inductive Step : Type :=
| Precondition | LaunchBrowser | OpenPage | Navigate | MapMount
| ContentReady | TileLoad | Settle | Resize | Recheck | Capture
| CloseBrowser.

Definition failed {A : Type} (o : option A) : bool :=
  match o with Some _ => true | None => false end.

(** Whether the world makes step [s] fail, were the run to get there. *)
Definition fails (w : World) (s : Step) : bool :=
  match s with
  | Precondition => negb (input_exists w)
  | LaunchBrowser => failed (launch_failure w)
  | OpenPage => failed (newPage_failure w)
  | Navigate => failed (goto_failure w)
  | MapMount => failed (mount_wait w)
  | ContentReady => failed (ready_wait w)
  | TileLoad => failed (tile_wait w)
  | Settle => false
  | Resize => failed (evaluate_failure w)
  | Recheck => negb (failed (mapEl w))
  | Capture => failed (screenshot_failure w)
  | CloseBrowser => failed (close_failure w)
  end.

(** The steps that come before the capture. *)
Definition readiness_steps : list Step :=
  [Precondition; LaunchBrowser; OpenPage; Navigate; MapMount; ContentReady;
   TileLoad; Settle; Resize; Recheck].

Definition reaches_recheck (w : World) : bool :=
  forallb (fun s => negb (fails w s))
    [Precondition; LaunchBrowser; OpenPage; Navigate; MapMount; ContentReady;
     TileLoad; Settle; Resize].

(** The browser calls of a run, in the order of the script, up to the
    second look-up of the map container. *)
Definition readiness_events (w : World) : list Event :=
  [Launch (launch_options w); NewPage;
   Goto ("file://" +:+ input w) "load" 120000;
   WaitForSelector ".leaflet-container" 60000;
   WaitForFunction ReadyFn 60000;
   WaitForFunction TilesFn 60000;
   Sleep 600; Evaluate ResizeFn; Sleep 100;
   Query ".leaflet-container"].

Definition plan (w : World) : list Event :=
  readiness_events w ++
  match mapEl w with
  | Some el => [ElementScreenshot el (output w); BrowserClose]
  | None => []
  end.

Definition is_browser_call (ev : Event) : bool :=
  match ev with
  | ExistsSync _ | ConsoleError _ _ | ConsoleLog _ _ | ProcessExit _ => false
  | _ => true
  end.

Definition browser_calls (w : World) : list Event :=
  List.filter is_browser_call (run_trace w).

(** What a capture of [el] at scale [scale] into [path] holds. *)
Definition picture_of (el : Element) (scale : Num) (path : string) : File :=
  Picture {| image_type := image_type_of path;
             image_width := pixel_size (box_x el) (box_width el) scale;
             image_height := pixel_size (box_y el) (box_height el) scale;
             image_of := el |}.

(** ** The specification's wording of some conditions *)

(** The readiness condition in the specification's words: a database
    object exists and exposes a "latest" field, and at least one labelled
    marker is in the document. *)
Definition spec_ready (p : Page) : bool :=
  has_prop (ACA_DB p) "latest" &&
  (0 <? Z.of_nat (length (querySelectorAll ".iata-tt" p))).

(** The readiness condition the page function tests: the database is an
    object whose "latest" property is truthy, and a marker is there. *)
Definition ready (p : Page) : Prop :=
  (exists props v, ACA_DB p = Object props /\ assoc "latest" props = Some v /\
                   truthy v = true) /\
  querySelectorAll ".iata-tt" p <> [].

(** The characters of a number, listed one by one: the white space below
    code 256, and the decimal digits in the order of their values. *)
Definition white_space : list ascii :=
  ["009"; "010"; "011"; "012"; "013"; " "; "160"]%char.
Definition decimal_digits : list ascii :=
  ["0"; "1"; "2"; "3"; "4"; "5"; "6"; "7"; "8"; "9"]%char.

Definition one_of (l : list ascii) (c : ascii) : bool :=
  existsb (Ascii.eqb c) l.

Fixpoint position (c : ascii) (l : list ascii) : Z :=
  match l with
  | [] => 0
  | d :: l' => if Ascii.eqb c d then 0 else 1 + position c l'
  end.

(** The number a string of decimal digits denotes. *)
Definition decimal (ds : list ascii) : Z :=
  fold_left (fun acc c => 10 * acc + position c decimal_digits) ds 0.

Definition all_white (ws : list ascii) : Prop :=
  Forall (fun c => one_of white_space c = true) ws.

Definition all_digits (ds : list ascii) : Prop :=
  Forall (fun c => one_of decimal_digits c = true) ds.

(** The text of a sign: nothing, [+] or [-]. *)
Definition sign_text (negative : option bool) : string :=
  match negative with
  | None => ""
  | Some false => "+"
  | Some true => "-"
  end.

Definition is_minus (negative : option bool) : bool :=
  match negative with Some true => true | _ => false end.

(** A string that begins, after white space and a sign, with a digit. *)
Definition begins_with_integer (s : string) : Prop :=
  exists ws sg d rest,
    all_white ws /\ one_of decimal_digits d = true /\
    s = string_of_list_ascii ws +:+ sign_text sg +:+ String d rest.

(** A string that begins, after white space and a sign, with a decimal
    literal: a digit, a point and a digit, or [Infinity]. *)
Definition begins_with_decimal (s : string) : Prop :=
  exists ws sg rest,
    all_white ws /\
    s = string_of_list_ascii ws +:+ sign_text sg +:+ rest /\
    ((exists d t, one_of decimal_digits d = true /\ rest = String d t) \/
     (exists d t, one_of decimal_digits d = true /\
                  rest = String "." (String d t)) \/
     (exists t, rest = "Infinity" +:+ t)).

Definition unset_or_empty (x : option string) : Prop :=
  x = None \/ x = Some "".

(** The string of a list of characters followed by a point and another
    list: [ip.fp]. *)
Definition point (ip fp : list ascii) : string :=
  string_of_list_ascii ip +:+ String "." (string_of_list_ascii fp).

(** White space, a sign, digits, and whatever follows. *)
Definition numeral (ws : list ascii) (sg : option bool) (ds : list ascii)
    (rest : string) : string :=
  string_of_list_ascii ws +:+ sign_text sg +:+ string_of_list_ascii ds +:+ rest.

(** [rest] cannot continue an integer. *)
Definition ends_integer (rest : string) : Prop :=
  match rest with
  | String c _ => one_of decimal_digits c = false
  | EmptyString => True
  end.

(** [rest] cannot continue a decimal literal either: no digit, no point,
    no exponent mark. *)
Definition ends_decimal (rest : string) : Prop :=
  match rest with
  | String c _ =>
      one_of decimal_digits c = false /\ Ascii.eqb c "." = false /\
      Ascii.eqb c "e" = false /\ Ascii.eqb c "E" = false
  | EmptyString => True
  end.

(** The number read from a decimal integer [n] with the given sign, and
    from the decimal fraction [n / 10 ^ k]: the nearest binary64 value. *)
Definition number_of (negative : bool) (n : Z) : Num :=
  Binary64.round negative n 1.
Definition fraction_of (negative : bool) (n : Z) (k : nat) : Num :=
  Binary64.round negative n (10 ^ Z.of_nat k).

(** ** Sample worlds *)

Module Sample.

Definition map_container (w h : Z) : Element :=
  {| classes := ["leaflet-container"; "leaflet-touch"]; complete := false;
     box_x := num_of_Z 0; box_y := num_of_Z 0;
     box_width := num_of_Z w; box_height := num_of_Z h |}.
Definition marker : Element :=
  {| classes := ["leaflet-tooltip"; "iata-tt"]; complete := false;
     box_x := num_of_Z 1180; box_y := num_of_Z 791;
     box_width := num_of_Z 40; box_height := num_of_Z 18 |}.
Definition tile (loaded : bool) : Element :=
  {| classes := ["leaflet-tile"]; complete := loaded;
     box_x := num_of_Z 1024; box_y := num_of_Z 512;
     box_width := num_of_Z 256; box_height := num_of_Z 256 |}.

Definition database : JsValue :=
  Object [("snapshots", Object []); ("latest", Str "2024-05-01")].
Definition stale_database : JsValue :=
  Object [("snapshots", Object []); ("latest", Null)].

Definition mounted (w h : Z) : Page :=
  {| ACA_DB := Undefined; elements := [map_container w h; tile false] |}.
Definition loaded (w h : Z) : Page :=
  {| ACA_DB := database;
     elements := [map_container w h; tile true; tile true; marker] |}.
Definition loading_tiles (w h : Z) : Page :=
  {| ACA_DB := database;
     elements := [map_container w h; tile true; tile false; marker] |}.
Definition stale (w h : Z) : Page :=
  {| ACA_DB := stale_database;
     elements := [map_container w h; tile true; marker] |}.
Definition unmounted : Page :=
  {| ACA_DB := database; elements := [tile true; marker] |}.

(** A run in which everything goes well: the page mounts the map at
    [bw] by [bh] CSS pixels, becomes ready at the second poll, and the
    tiles are complete. *)
Definition world (vars : gmap string string) (bw bh : Z) : World :=
  {| dirname := "/home/ci/Americas_ACA_map/scripts";
     cwd := "/home/ci/Americas_ACA_map";
     argv := ["node"; "scripts/screenshot.js"];
     env := vars;
     disk := {[ "/home/ci/Americas_ACA_map/docs/index.html" := Document ]};
     launch_failure := None;
     newPage_failure := None;
     goto_failure := None;
     mount_polls := [mounted bw bh];
     ready_polls := [mounted bw bh; loaded bw bh];
     tile_polls := [loaded bw bh];
     evaluate_failure := None;
     settled_page := loaded bw bh;
     screenshot_failure := None;
     close_failure := None |}.

Definition good : World := world ∅ 2400 1600.

Definition overridden : World :=
  world {[ "PNG_W" := "800"; "PNG_H" := "600"; "PNG_SCALE" := "1" ]} 800 600.

(** A width that is no number, a height and a scale with a fraction. *)
Definition odd_env : World :=
  world {[ "PNG_W" := "wide"; "PNG_H" := "600.9"; "PNG_SCALE" := "1.5" ]}
    800 600.

(** The map container takes half of the viewport each way. *)
Definition small_map : World := world ∅ 1200 800.

Definition with_disk (d : gmap string File) (w : World) : World :=
  {| dirname := dirname w; cwd := cwd w; argv := argv w; env := env w;
     disk := d;
     launch_failure := launch_failure w; newPage_failure := newPage_failure w;
     goto_failure := goto_failure w; mount_polls := mount_polls w;
     ready_polls := ready_polls w; tile_polls := tile_polls w;
     evaluate_failure := evaluate_failure w; settled_page := settled_page w;
     screenshot_failure := screenshot_failure w;
     close_failure := close_failure w |}.

Definition with_goto_failure (e : Error) (w : World) : World :=
  {| dirname := dirname w; cwd := cwd w; argv := argv w; env := env w;
     disk := disk w;
     launch_failure := launch_failure w; newPage_failure := newPage_failure w;
     goto_failure := Some e; mount_polls := mount_polls w;
     ready_polls := ready_polls w; tile_polls := tile_polls w;
     evaluate_failure := evaluate_failure w; settled_page := settled_page w;
     screenshot_failure := screenshot_failure w;
     close_failure := close_failure w |}.

Definition with_polls (ready tiles : list Page) (settled : Page) (w : World)
  : World :=
  {| dirname := dirname w; cwd := cwd w; argv := argv w; env := env w;
     disk := disk w;
     launch_failure := launch_failure w; newPage_failure := newPage_failure w;
     goto_failure := goto_failure w; mount_polls := mount_polls w;
     ready_polls := ready; tile_polls := tiles;
     evaluate_failure := evaluate_failure w; settled_page := settled;
     screenshot_failure := screenshot_failure w;
     close_failure := close_failure w |}.

Definition with_location (dir wd : string) (w : World) : World :=
  {| dirname := dir; cwd := wd; argv := argv w; env := env w;
     disk := disk w;
     launch_failure := launch_failure w; newPage_failure := newPage_failure w;
     goto_failure := goto_failure w; mount_polls := mount_polls w;
     ready_polls := ready_polls w; tile_polls := tile_polls w;
     evaluate_failure := evaluate_failure w; settled_page := settled_page w;
     screenshot_failure := screenshot_failure w;
     close_failure := close_failure w |}.

(** docs/index.html has not been generated. *)
Definition missing_input : World := with_disk ∅ good.

(** An earlier picture is on disk and the load event never comes. *)
Definition old_picture : File :=
  picture_of (map_container 2400 1600) (num_of_Z 2)
    "/home/ci/Americas_ACA_map/docs/aca_map.png".
Definition navigation_timeout : World :=
  with_goto_failure (TimeoutError 120000)
    (with_disk {[ "/home/ci/Americas_ACA_map/docs/index.html" := Document;
                  "/home/ci/Americas_ACA_map/docs/aca_map.png" := old_picture ]}
       good).

(** One tile never completes within the bound of the tile wait. *)
Definition tile_timeout : World :=
  with_polls (ready_polls good)
    [loading_tiles 2400 1600; loading_tiles 2400 1600; loading_tiles 2400 1600]
    (loading_tiles 2400 1600) good.

(** The database object is there with [latest: null] at every poll. *)
Definition stale_db : World :=
  with_polls [stale 2400 1600; stale 2400 1600; stale 2400 1600]
    (tile_polls good) (stale 2400 1600) good.

(** The map container is gone when it is looked up again. *)
Definition map_removed : World :=
  with_polls (ready_polls good) (tile_polls good) unmounted good.

End Sample.

(** ** Further notions about a run *)


(** The steps before the closing of the browser. *)
Definition all_steps : list Step := readiness_steps ++ [Capture].

(** The first step before the closing of the browser, in the order of the
    script, that the world makes fail. *)
Definition first_failure (w : World) : option Step :=
  List.find (fails w) all_steps.

Definition is_console (ev : Event) : bool :=
  match ev with
  | ConsoleError _ _ | ConsoleLog _ _ => true
  | _ => false
  end.

(** The script's own [console.log] and [console.error] calls.  What Node
    itself writes when the script's promise is rejected and nothing handles
    it is not among them. *)
Definition console_lines (w : World) : list Event :=
  List.filter is_console (run_trace w).

Definition sleep_ms (ev : Event) : Z :=
  match ev with Sleep ms => ms | _ => 0 end.

(** The time a run spends in [sleep], in milliseconds. *)
Definition settle_time (w : World) : Z :=
  fold_right (fun ev acc => sleep_ms ev + acc) 0 (run_trace w).

(** Every map tile of the page reports a complete load. *)
Definition tiles_complete (p : Page) : Prop :=
  forall el, In el (elements p) ->
             has_class "leaflet-tile" el = true -> complete el = true.

(** The world of a second run, started on the files the first one left,
    with the browser and the page behaving as before. *)
Definition after (w : World) : World :=
  {| dirname := dirname w; cwd := cwd w; argv := argv w; env := env w;
     disk := run_files w;
     launch_failure := launch_failure w; newPage_failure := newPage_failure w;
     goto_failure := goto_failure w; mount_polls := mount_polls w;
     ready_polls := ready_polls w; tile_polls := tile_polls w;
     evaluate_failure := evaluate_failure w; settled_page := settled_page w;
     screenshot_failure := screenshot_failure w;
     close_failure := close_failure w |}.

(** A world in which the launch and the closing of the browser go as
    given, and the rest as in [w]. *)
Definition with_calls (launch close : option Error) (w : World) : World :=
  {| dirname := dirname w; cwd := cwd w; argv := argv w; env := env w;
     disk := disk w;
     launch_failure := launch; newPage_failure := newPage_failure w;
     goto_failure := goto_failure w; mount_polls := mount_polls w;
     ready_polls := ready_polls w; tile_polls := tile_polls w;
     evaluate_failure := evaluate_failure w; settled_page := settled_page w;
     screenshot_failure := screenshot_failure w;
     close_failure := close |}.

(** No browser can be started. *)
Definition launch_refused : World :=
  with_calls (Some (BrowserError "Failed to launch the browser process"))
    None Sample.good.

(** The connection to the browser is lost once the picture is taken. *)
Definition close_refused : World :=
  with_calls None (Some (BrowserError "Connection closed")) Sample.good.

(** A viewport of 801 by 600 at scale 1.5, filled by the map. *)
Definition half_pixel : World :=
  Sample.world {[ "PNG_W" := "801"; "PNG_H" := "600"; "PNG_SCALE" := "1.5" ]}
    801 600.

(** A width beyond [2 ^ 53] and a scale with more digits than binary64
    keeps. *)
Definition long_numbers : World :=
  Sample.world {[ "PNG_W" := "9007199254740993.0";
                  "PNG_SCALE" := "1.0000000000000001" ]} 800 600.

(** A negative width with a unit, and a scale with a trailing letter. *)
Definition signed_env : World :=
  Sample.world {[ "PNG_W" := " -12px"; "PNG_SCALE" := "3x" ]} 800 600.

(** The map and its marker are there, the tile layer has no image yet. *)
Definition no_tiles_yet : World :=
  Sample.with_polls (ready_polls Sample.good)
    [{| ACA_DB := Sample.database;
        elements := [Sample.map_container 2400 1600; Sample.marker] |}]
    (settled_page Sample.good) Sample.good.

(** * Properties *)

(** ** Paths *)

Module PathFacts.
Import Path.

Lemma append_nil_l (b : string) : "" +:+ b = b.
Proof. reflexivity. Qed.

Lemma append_cons (c : ascii) (a b : string) :
  String c a +:+ b = String c (a +:+ b).
Proof. reflexivity. Qed.

Lemma append_nil_r (s : string) : s +:+ "" = s.
Proof. induction s as [|c s IH]; [done|]. by rewrite append_cons, IH. Qed.

Lemma append_assoc (a b c : string) : (a +:+ b) +:+ c = a +:+ (b +:+ c).
Proof.
  induction a as [|x a IH]; [done|]. by rewrite !append_cons, IH.
Qed.

Lemma split_not_nil (s : string) : split s ≠ [].
Proof.
  destruct s as [|c s]; simpl; [done|].
  destruct (Ascii.eqb c "/"); [done|]. by destruct (split s).
Qed.

Lemma split_app (a b : string) :
  split (a +:+ String "/" b) = split a ++ split b.
Proof.
  induction a as [|c a IH]; [done|].
  rewrite append_cons. simpl.
  destruct (Ascii.eqb c "/"); [by rewrite IH|].
  rewrite IH. pose proof (split_not_nil a) as Hne.
  by destruct (split a).
Qed.

Lemma normalize_segs_app (a : bool) (l1 l2 res : list string) :
  normalize_segs a res (l1 ++ l2) = normalize_segs a (normalize_segs a res l1) l2.
Proof.
  revert res. induction l1 as [|seg l1 IH]; intros res; simpl; [done|].
  destruct (_ || _); [apply IH|].
  destruct (String.eqb seg ".."); [|apply IH].
  destruct res as [|last res']; [apply IH|].
  destruct (String.eqb last ".."); apply IH.
Qed.

Lemma split_one (seg : string) : no_slash seg → split seg = [seg].
Proof.
  unfold no_slash. induction seg as [|c seg IH]; [done|]. simpl.
  intros [E H]%orb_false_iff. by rewrite E, IH.
Qed.

Lemma no_slash_trailing (seg : string) :
  no_slash seg → ends_with_slash seg = false.
Proof.
  unfold no_slash. induction seg as [|c seg IH]; [done|]. simpl.
  intros [E H]%orb_false_iff. destruct seg; [done | by apply IH].
Qed.

Lemma normalize_segs_plain (a : bool) (segs res : list string) :
  Forall (λ seg, plain seg = true) segs →
  normalize_segs a res segs = rev segs ++ res.
Proof.
  intros H. revert res. induction H as [|seg segs Hseg _ IH]; intros res; simpl; [done|].
  unfold plain in Hseg. apply negb_true_iff in Hseg.
  apply orb_false_iff in Hseg as [Hseg H2].
  rewrite Hseg, H2. rewrite IH. by rewrite <- app_assoc.
Qed.

Lemma normalize_segs_keeps (P : string → Prop) (segs res : list string) :
  Forall P res → Forall P segs →
  Forall P (normalize_segs false res segs).
Proof.
  intros Hres Hsegs. revert res Hres.
  induction Hsegs as [|seg segs Hseg _ IH]; intros res Hres; simpl; [done|].
  destruct (_ || _); [by apply IH|].
  destruct (String.eqb seg "..").
  - destruct res as [|last res']; [by apply IH|].
    destruct (String.eqb last ".."); apply IH; [done|].
    by inversion Hres.
  - apply IH. by constructor.
Qed.

Lemma normalize_segs_all_plain (segs res : list string) :
  Forall (λ seg, plain seg = true) res →
  Forall (λ seg, plain seg = true) (normalize_segs false res segs).
Proof.
  revert res. induction segs as [|seg segs IH]; intros res Hres; simpl; [done|].
  destruct (_ || _) eqn:E1; [by apply IH|].
  destruct (String.eqb seg "..") eqn:E2.
  - destruct res as [|last res']; [by apply IH|].
    destruct (String.eqb last ".."); apply IH; [done|].
    by inversion Hres.
  - apply IH. constructor; [|done]. unfold plain. by rewrite E1, E2.
Qed.

Lemma split_no_slash (s : string) : Forall no_slash (split s).
Proof.
  induction s as [|c s IH]; simpl.
  - by repeat constructor.
  - destruct (Ascii.eqb c "/") eqn:E.
    + by constructor.
    + pose proof (split_not_nil s). destruct (split s) as [|seg segs]; [done|].
      inversion IH as [|? ? Hseg Hsegs]; subst. constructor; [|done].
      unfold no_slash in *. simpl. by rewrite E, Hseg.
Qed.

Lemma split_join (segs : list string) :
  Forall no_slash segs → segs ≠ [] → split (join_segs segs) = segs.
Proof.
  induction 1 as [|seg segs Hseg Hsegs IH]; intros Hne; [done|].
  destruct segs as [|seg' segs]; [by apply split_one|].
  change (join_segs (seg :: seg' :: segs))
    with (seg +:+ String "/" (join_segs (seg' :: segs))).
  rewrite split_app, split_one, IH; done.
Qed.

Lemma join_segs_snoc (segs : list string) (seg : string) :
  join_segs (segs ++ [seg]) =
  match segs with
  | [] => seg
  | _ => join_segs segs +:+ String "/" seg
  end.
Proof.
  induction segs as [|x segs IH]; [done|].
  destruct segs as [|y segs]; [done|].
  change (join_segs ((x :: y :: segs) ++ [seg]))
    with (x +:+ String "/" (join_segs ((y :: segs) ++ [seg]))).
  rewrite IH.
  change (join_segs (x :: y :: segs)) with (x +:+ String "/" (join_segs (y :: segs))).
  by rewrite !append_assoc.
Qed.

Lemma append_empty_inv (a b : string) : a +:+ b = "" → b = "".
Proof. destruct a; [done | discriminate]. Qed.

Lemma join_segs_snoc_nonempty (segs : list string) (seg : string) :
  seg ≠ "" → join_segs (segs ++ [seg]) ≠ "".
Proof.
  intros Hseg. rewrite join_segs_snoc. destruct segs; [done|].
  intros H. apply append_empty_inv in H. discriminate.
Qed.

Lemma ends_with_slash_app (a b : string) :
  b ≠ "" → ends_with_slash (a +:+ b) = ends_with_slash b.
Proof.
  intros Hb. induction a as [|c a IH]; [done|].
  rewrite append_cons. simpl. destruct (a +:+ b) eqn:E; [|done].
  by apply append_empty_inv in E.
Qed.

Lemma eqb_false_nonempty (s : string) : s ≠ "" → String.eqb s "" = false.
Proof. by destruct s. Qed.

(** [normalize] on an absolute path that does not end in a slash and whose
    last segment is plain. *)
Lemma normalize_absolute (p : string) (R : list string) :
  isAbsolute p = true → ends_with_slash p = false →
  normalize_segs false [] (split p) = R → R ≠ [] →
  Forall (λ seg, plain seg = true) R →
  normalize p = "/" +:+ join_segs (rev R).
Proof.
  intros Habs Htrail HR Hne Hplain.
  assert (String.eqb p "" = false) as Hp by (by destruct p).
  unfold normalize, normalizeString.
  rewrite Hp, Habs, Htrail. simpl negb. rewrite HR.
  destruct R as [|x R]; [done|]. simpl rev.
  rewrite eqb_false_nonempty; [done|].
  apply join_segs_snoc_nonempty. inversion Hplain; subst.
  by destruct x.
Qed.

Lemma normalize_segs_snoc_plain (a : bool) (segs res : list string) (seg : string) :
  plain seg = true →
  normalize_segs a res (segs ++ [seg]) = seg :: normalize_segs a res segs.
Proof.
  intros Hseg. rewrite normalize_segs_app.
  by rewrite (normalize_segs_plain a [seg]); [|repeat constructor].
Qed.

(** A path joined with a plain file name ends in that name. *)
Lemma normalize_file_name (p name : string) :
  plain name = true → no_slash name →
  ∃ pre, normalize (p +:+ String "/" name) = pre +:+ name.
Proof.
  intros Hplain Hname.
  assert (name ≠ "") as Hne by (by destruct name).
  unfold normalize, normalizeString.
  rewrite eqb_false_nonempty
    by (intros H; by apply append_empty_inv in H).
  rewrite ends_with_slash_app by done.
  assert (ends_with_slash (String "/" name) = false) as ->.
  { destruct name as [|c n]; [done|].
    exact (no_slash_trailing (String c n) Hname). }
  rewrite split_app, (split_one name), normalize_segs_snoc_plain by done.
  simpl rev. rewrite eqb_false_nonempty by (by apply join_segs_snoc_nonempty).
  rewrite join_segs_snoc.
  set (l := rev _). change (String "/" name) with ("/" +:+ name).
  destruct l as [|x l]; destruct (isAbsolute _).
  - by exists "/".
  - by exists "".
  - exists ("/" +:+ join_segs (x :: l) +:+ "/"). by rewrite !append_assoc.
  - exists (join_segs (x :: l) +:+ "/"). by rewrite !append_assoc.
Qed.

Lemma join_file_name (dir name : string) :
  plain name = true → no_slash name →
  ∃ pre, join [dir; "docs"; name] = pre +:+ name.
Proof.
  intros Hplain Hname.
  assert (nonempty name = true) as Hne by (by destruct name).
  unfold join. simpl List.filter. rewrite Hne.
  destruct (nonempty dir).
  - change (join_segs [dir; "docs"; name])
      with (dir +:+ ("/docs" +:+ String "/" name)).
    rewrite <- append_assoc.
    by apply normalize_file_name.
  - by apply (normalize_file_name "docs").
Qed.

Lemma parent_segs_plain (d : string) :
  Forall (λ seg, plain seg = true) (parent_segs d).
Proof. by apply normalize_segs_all_plain. Qed.

Lemma parent_segs_no_slash (d : string) : Forall no_slash (parent_segs d).
Proof.
  apply normalize_segs_keeps; [done|].
  apply Forall_app. split; [apply split_no_slash | by repeat constructor].
Qed.

Lemma resolve_parent (cwd d : string) :
  isAbsolute d = true →
  resolve cwd [d; ".."] = "/" +:+ join_segs (rev (parent_segs d)).
Proof.
  intros Habs.
  assert (String.eqb d "" = false) as Hd by (by destruct d).
  unfold resolve. simpl rev. simpl resolve_loop. rewrite Hd, Habs.
  unfold normalizeString, parent_segs. simpl negb.
  change (".." +:+ "/" +:+ "") with "../".
  change ("/" +:+ "../") with (String "/" "../").
  rewrite split_app. change (split "../") with ([".."] ++ [""]).
  by rewrite app_assoc, (normalize_segs_app false _ [""]).
Qed.

Lemma join_under_root (R : list string) (a b : string) :
  Forall (λ seg, plain seg = true) R → Forall no_slash R →
  plain a = true → no_slash a → plain b = true → no_slash b →
  join ["/" +:+ join_segs (rev R); a; b] = "/" +:+ join_segs (rev (b :: a :: R)).
Proof.
  intros HR HRs Ha Has Hb Hbs.
  assert (nonempty a = true) as Hna by (by destruct a).
  assert (nonempty b = true) as Hnb by (by destruct b).
  assert (b ≠ "") as Hbne by (by destruct b).
  unfold join. simpl List.filter. rewrite Hna, Hnb.
  set (rr := "/" +:+ join_segs (rev R)).
  change (join_segs [rr; a; b]) with (rr +:+ String "/" (a +:+ String "/" b)).
  apply normalize_absolute; [done| | |done|].
  - rewrite ends_with_slash_app by done.
    change (ends_with_slash (String "/" (a +:+ String "/" b)))
      with (ends_with_slash (("/" +:+ a) +:+ String "/" b)).
    rewrite ends_with_slash_app by done.
    destruct b as [|c b]; [done|].
    exact (no_slash_trailing (String c b) Hbs).
  - rewrite !split_app, (split_one a), (split_one b) by done.
    unfold rr. change ("/" +:+ join_segs (rev R)) with ("" +:+ String "/" (join_segs (rev R))).
    rewrite split_app. simpl app. simpl normalize_segs.
    destruct R as [|x R].
    + simpl. unfold plain in Ha, Hb.
      apply negb_true_iff, orb_false_iff in Ha as [-> ->].
      apply negb_true_iff, orb_false_iff in Hb as [-> ->]. done.
    + rewrite split_join.
      * rewrite normalize_segs_plain.
        -- by rewrite rev_app_distr, rev_involutive, app_nil_r.
        -- apply Forall_app. split; [by apply Forall_rev | by repeat constructor].
      * by apply Forall_rev.
      * simpl. intros H. by apply app_eq_nil in H as [_ ?].
  - by repeat constructor.
Qed.

Lemma normalize_under_parent (d a b : string) :
  isAbsolute d = true →
  plain a = true → no_slash a → plain b = true → no_slash b →
  normalize (d +:+ String "/" (".." +:+ String "/" (a +:+ String "/" b))) =
  "/" +:+ join_segs (rev (b :: a :: parent_segs d)).
Proof.
  intros Habs Ha Has Hb Hbs.
  assert (b ≠ "") as Hbne by (by destruct b).
  apply normalize_absolute.
  - by destruct d.
  - rewrite ends_with_slash_app by done.
    change (ends_with_slash (String "/" (".." +:+ String "/" (a +:+ String "/" b))))
      with (ends_with_slash (("/../" +:+ a) +:+ String "/" b)).
    rewrite ends_with_slash_app by done.
    destruct b as [|c b]; [done|].
    exact (no_slash_trailing (String c b) Hbs).
  - rewrite !split_app, (split_one a), (split_one b) by done.
    change (split "..") with [".."].
    rewrite app_assoc, normalize_segs_app.
    fold (parent_segs d).
    by rewrite (normalize_segs_plain false [a; b]) by (by repeat constructor).
  - done.
  - constructor; [done|]. constructor; [done|]. apply parent_segs_plain.
Qed.

End PathFacts.

(** ** Reading numbers *)

(** The scanner's character classes are the listed characters. *)
Lemma white_is_listed (c : ascii) : is_white c = one_of white_space c.
Proof. by destruct c as [[] [] [] [] [] [] [] []]. Qed.

Lemma digit_is_listed (c : ascii) : is_digit c = one_of decimal_digits c.
Proof. by destruct c as [[] [] [] [] [] [] [] []]. Qed.

Lemma digit_val_is_position (c : ascii) :
  one_of decimal_digits c = true → digit_val c = position c decimal_digits.
Proof.
  destruct c as [[] [] [] [] [] [] [] []]; intros H; try discriminate H;
    reflexivity.
Qed.

Lemma digit_is_plain (c : ascii) :
  one_of decimal_digits c = true →
  is_white c = false ∧ Ascii.eqb c "-" = false ∧ Ascii.eqb c "+" = false ∧
  Ascii.eqb c "." = false ∧ Ascii.eqb c "I" = false.
Proof.
  destruct c as [[] [] [] [] [] [] [] []]; intros H; try discriminate H;
    by vm_compute.
Qed.

Lemma digits_value_decimal (ds : list ascii) :
  all_digits ds → digits_value 10 ds = decimal ds.
Proof.
  unfold digits_value, decimal. intros Hds. generalize 0.
  induction Hds as [|d ds Hd _ IH]; intros acc; [done|]. cbn [fold_left].
  rewrite digit_val_is_position by done.
  replace (acc * 10 + position d decimal_digits)
    with (10 * acc + position d decimal_digits) by lia.
  apply IH.
Qed.

Lemma span_digits_head (c : ascii) (s : string) :
  span_digits 10 (String c s) =
  if one_of decimal_digits c
  then (c :: fst (span_digits 10 s), snd (span_digits 10 s))
  else ([], String c s).
Proof.
  rewrite <- digit_is_listed. simpl. unfold is_digit.
  destruct (is_radix_digit 10 c); [|done].
  by destruct (span_digits 10 s).
Qed.

Lemma span_all_digits (ds : list ascii) (rest : string) :
  all_digits ds → ends_integer rest →
  span_digits 10 (string_of_list_ascii ds +:+ rest) = (ds, rest).
Proof.
  intros Hds Hrest. induction Hds as [|d ds Hd _ IH].
  - destruct rest as [|c rest]; [done|].
    change (string_of_list_ascii [] +:+ String c rest) with (String c rest).
    by rewrite span_digits_head, Hrest.
  - change (string_of_list_ascii (d :: ds) +:+ rest)
      with (String d (string_of_list_ascii ds +:+ rest)).
    by rewrite span_digits_head, Hd, IH.
Qed.

(** The digits that [span_digits] takes are digits. *)
Lemma span_digits_digits (s : string) : all_digits (fst (span_digits 10 s)).
Proof.
  induction s as [|c s IH]; [constructor|].
  rewrite span_digits_head. destruct (one_of decimal_digits c) eqn:E;
    [by constructor | constructor].
Qed.

(** [parseInt] in radix 10: no prefix is looked for. *)
Lemma parseInt_10 (s : string) :
  parseInt s 10 =
  match span_digits 10 (snd (strip_sign (trim_start s))) with
  | ([], _) => NaN
  | (ds, _) =>
      Binary64.round (fst (strip_sign (trim_start s))) (digits_value 10 ds) 1
  end.
Proof.
  unfold parseInt. by destruct (strip_sign (trim_start s)) as [neg s1].
Qed.

Lemma round_is_a_number (negative : bool) (n d : Z) :
  Binary64.round negative n d ≠ NaN.
Proof.
  unfold Binary64.round, Binary64.zero.
  repeat case_match; discriminate.
Qed.

(** ** What the scanner skips *)

Lemma trim_start_white (ws : list ascii) (s : string) :
  all_white ws → trim_start (string_of_list_ascii ws +:+ s) = trim_start s.
Proof.
  induction 1 as [|c ws Hc _ IH]; [done|].
  change (string_of_list_ascii (c :: ws) +:+ s)
    with (String c (string_of_list_ascii ws +:+ s)).
  simpl. by rewrite white_is_listed, Hc.
Qed.

Lemma trim_start_split (s : string) :
  ∃ ws, all_white ws ∧ s = string_of_list_ascii ws +:+ trim_start s.
Proof.
  induction s as [|c s (ws & Hws & IH)];
    [exists []; split; [constructor | reflexivity]|].
  simpl. destruct (is_white c) eqn:Hc.
  - exists (c :: ws). split.
    + constructor; [by rewrite <- white_is_listed | done].
    + change (string_of_list_ascii (c :: ws) +:+ trim_start s)
        with (String c (string_of_list_ascii ws +:+ trim_start s)).
      by rewrite <- IH.
  - exists []. split; [constructor | reflexivity].
Qed.

Lemma strip_sign_split (t : string) :
  ∃ sg, t = sign_text sg +:+ snd (strip_sign t) ∧
        fst (strip_sign t) = is_minus sg.
Proof.
  destruct t as [|c t]; [by exists None|]. simpl.
  destruct (Ascii.eqb c "-") eqn:Hm.
  - apply Ascii.eqb_eq in Hm as ->. by exists (Some true).
  - destruct (Ascii.eqb c "+") eqn:Hp.
    + apply Ascii.eqb_eq in Hp as ->. by exists (Some false).
    + by exists None.
Qed.

(** After white space, a sign and a digit are read as they stand. *)
Lemma scan_signed (ws : list ascii) (sg : option bool) (d : ascii)
    (rest : string) :
  all_white ws → one_of decimal_digits d = true →
  strip_sign (trim_start
    (string_of_list_ascii ws +:+ sign_text sg +:+ String d rest)) =
  (is_minus sg, String d rest).
Proof.
  intros Hws Hd. rewrite trim_start_white by done.
  destruct (digit_is_plain d Hd) as (Hw & Hm & Hp & _).
  destruct sg as [[|]|]; unfold sign_text;
    rewrite ?PathFacts.append_cons, ?PathFacts.append_nil_l; simpl;
    rewrite ?Hw; simpl; by rewrite ?Hm, ?Hp.
Qed.

(** The same when what follows the sign is a point or the word Infinity. *)
Lemma scan_signed_other (ws : list ascii) (sg : option bool) (c : ascii)
    (rest : string) :
  all_white ws → c = "."%char ∨ c = "I"%char →
  strip_sign (trim_start
    (string_of_list_ascii ws +:+ sign_text sg +:+ String c rest)) =
  (is_minus sg, String c rest).
Proof.
  intros Hws Hc. rewrite trim_start_white by done.
  destruct sg as [[|]|]; unfold sign_text;
    rewrite ?PathFacts.append_cons, ?PathFacts.append_nil_l;
    destruct Hc as [-> | ->]; reflexivity.
Qed.

Lemma parseInt_NaN (s : string) :
  parseInt s 10 = NaN ↔ ¬ begins_with_integer s.
Proof.
  rewrite parseInt_10. split.
  - intros Hnan (ws & sg & d & rest & Hws & Hd & ->).
    rewrite scan_signed in Hnan by done. cbn [fst snd] in Hnan.
    rewrite span_digits_head, Hd in Hnan. by apply round_is_a_number in Hnan.
  - intros Hnot.
    destruct (span_digits 10 (snd (strip_sign (trim_start s))))
      as [[|d ds] r] eqn:Hspan; [done|].
    destruct Hnot.
    destruct (trim_start_split s) as (ws & Hws & Hs).
    destruct (strip_sign_split (trim_start s)) as (sg & Ht & _).
    destruct (snd (strip_sign (trim_start s))) as [|c t]; [discriminate Hspan|].
    rewrite span_digits_head in Hspan.
    destruct (one_of decimal_digits c) eqn:Hc; [|discriminate Hspan].
    exists ws, sg, c, t. repeat split; [done..|]. by rewrite <- Ht.
Qed.

Lemma starts_with_split (p s : string) :
  starts_with p s = true → ∃ t, s = p +:+ t.
Proof.
  revert s. induction p as [|a p IH]; intros s; [by exists s|].
  destruct s as [|b s]; [discriminate|]. simpl.
  intros [Hab Hps]%andb_true_iff. apply Ascii.eqb_eq in Hab as ->.
  destruct (IH s Hps) as [t ->]. by exists t.
Qed.

Lemma starts_with_app (p t : string) : starts_with p (p +:+ t) = true.
Proof.
  induction p as [|a p IH]; [done|]. rewrite PathFacts.append_cons. simpl.
  by rewrite Ascii.eqb_refl, IH.
Qed.

Lemma parseFloat_NaN (s : string) :
  parseFloat s = NaN ↔ ¬ begins_with_decimal s.
Proof.
  unfold parseFloat. split.
  - intros Hnan (ws & sg & rest & Hws & -> & [H|[H|H]]).
    + destruct H as (d & t & Hd & ->).
      rewrite scan_signed in Hnan by done.
      destruct (digit_is_plain d Hd) as (_ & _ & _ & _ & HI).
      cbn [starts_with] in Hnan. rewrite Ascii.eqb_sym, HI in Hnan.
      cbn [andb] in Hnan. rewrite span_digits_head, Hd in Hnan.
      destruct (snd (span_digits 10 t)) as [|c r]; cbn [fst snd] in Hnan.
      * cbn [app] in Hnan. case_match; by apply round_is_a_number in Hnan.
      * destruct (Ascii.eqb c "."); [destruct (span_digits 10 r)|];
          cbn [app] in Hnan; case_match; by apply round_is_a_number in Hnan.
    + destruct H as (d & t & Hd & ->).
      rewrite scan_signed_other in Hnan by auto.
      cbn [starts_with] in Hnan. simpl Ascii.eqb in Hnan. cbn [andb] in Hnan.
      rewrite span_digits_head in Hnan. simpl one_of in Hnan.
      cbv iota in Hnan. simpl Ascii.eqb in Hnan. cbv iota in Hnan.
      rewrite span_digits_head, Hd in Hnan.
      destruct (snd (span_digits 10 t)); cbn [app] in Hnan;
        case_match; by apply round_is_a_number in Hnan.
    + destruct H as (t & ->).
      change ("Infinity" +:+ t) with (String "I" ("nfinity" +:+ t)) in Hnan.
      rewrite scan_signed_other in Hnan by auto.
      change (String "I" ("nfinity" +:+ t)) with ("Infinity" +:+ t) in Hnan.
      by rewrite starts_with_app in Hnan.
  - intros Hnot.
    destruct (trim_start_split s) as (ws & Hws & Hs).
    destruct (strip_sign_split (trim_start s)) as (sg & Ht & _).
    assert (∀ rest, snd (strip_sign (trim_start s)) = rest →
              s = string_of_list_ascii ws +:+ sign_text sg +:+ rest) as Hrest
      by (intros rest <-; by rewrite <- Ht).
    destruct (strip_sign (trim_start s)) as [neg t]. cbn [snd] in Hrest.
    destruct (starts_with "Infinity" t) eqn:HI.
    { destruct Hnot. apply starts_with_split in HI as [tail ->].
      exists ws, sg, ("Infinity" +:+ tail). eauto 10. }
    destruct t as [|c t]; [done|]. rewrite span_digits_head.
    destruct (one_of decimal_digits c) eqn:Hc.
    { destruct Hnot. exists ws, sg, (String c t). eauto 10. }
    destruct (Ascii.eqb c ".") eqn:Hdot; [|done].
    apply Ascii.eqb_eq in Hdot as ->.
    destruct t as [|d t]; [done|]. rewrite span_digits_head.
    destruct (one_of decimal_digits d) eqn:Hd; [|done].
    destruct Hnot. exists ws, sg, (String "." (String d t)).
    split; [done|]. split; [by apply Hrest|]. right. left. eauto.
Qed.

(** ** The value that is read *)

Lemma scan_numeral (ws : list ascii) (sg : option bool) (ds : list ascii)
    (rest : string) :
  all_white ws → all_digits ds → ds ≠ [] →
  strip_sign (trim_start (numeral ws sg ds rest)) =
  (is_minus sg, string_of_list_ascii ds +:+ rest).
Proof.
  intros Hws Hds Hne. unfold numeral.
  destruct ds as [|d ds]; [done|]. inversion Hds as [|? ? Hd _]; subst.
  change (string_of_list_ascii (d :: ds) +:+ rest)
    with (String d (string_of_list_ascii ds +:+ rest)).
  by apply scan_signed.
Qed.

Lemma parseInt_numeral (ws : list ascii) (sg : option bool) (ds : list ascii)
    (rest : string) :
  all_white ws → all_digits ds → ds ≠ [] → ends_integer rest →
  parseInt (numeral ws sg ds rest) 10 = number_of (is_minus sg) (decimal ds).
Proof.
  intros Hws Hds Hne Hrest.
  rewrite parseInt_10, scan_numeral by done. cbn [fst snd].
  rewrite span_all_digits by done. rewrite digits_value_decimal by done.
  by destruct ds.
Qed.

Lemma parseFloat_numeral (ws : list ascii) (sg : option bool) (ds : list ascii)
    (rest : string) :
  all_white ws → all_digits ds → ds ≠ [] → ends_decimal rest →
  parseFloat (numeral ws sg ds rest) = number_of (is_minus sg) (decimal ds).
Proof.
  intros Hws Hds Hne Hrest. unfold parseFloat.
  rewrite scan_numeral by done.
  assert (ends_integer rest) as Hint
    by (destruct rest; [done | by destruct Hrest]).
  rewrite span_all_digits by done.
  destruct ds as [|d ds]; [done|]. inversion Hds as [|? ? Hd _]; subst.
  destruct (digit_is_plain d Hd) as (_ & _ & _ & _ & HI).
  change (string_of_list_ascii (d :: ds) +:+ rest)
    with (String d (string_of_list_ascii ds +:+ rest)).
  cbn [starts_with]. rewrite Ascii.eqb_sym, HI. cbn [andb]. cbv iota.
  assert ((match rest with
          | String c r => if Ascii.eqb c "." then span_digits 10 r else ([], rest)
          | EmptyString => ([], rest)
           end) = ([], rest)) as ->.
  { destruct rest as [|c r]; [done|]. by destruct Hrest as (_ & -> & _). }
  assert (exponent_part rest = 0) as ->.
  { destruct rest as [|c r]; [done|]. destruct Hrest as (_ & _ & He & HE).
    simpl. by rewrite He, HE. }
  rewrite app_nil_r. cbn iota. simpl length. simpl Z.of_nat.
  change (0 - 0) with 0. change (0 <=? 0) with true. cbv iota.
  rewrite digits_value_decimal by done. unfold number_of.
  by rewrite Z.pow_0_r, Z.mul_1_r.
Qed.

Lemma point_scan (ip : list ascii) (rest : string) :
  all_digits ip → ip ≠ [] →
  strip_sign (trim_start (string_of_list_ascii ip +:+ String "." rest)) =
  (false, string_of_list_ascii ip +:+ String "." rest).
Proof.
  intros Hip Hne.
  exact (scan_numeral [] None ip (String "." rest) (Forall_nil_2 _) Hip Hne).
Qed.

Lemma parseInt_point (ip : list ascii) (rest : string) :
  all_digits ip → ip ≠ [] →
  parseInt (string_of_list_ascii ip +:+ String "." rest) 10 =
  number_of false (decimal ip).
Proof.
  intros Hip Hne.
  exact (parseInt_numeral [] None ip (String "." rest) (Forall_nil_2 _) Hip Hne
           eq_refl).
Qed.

Lemma parseFloat_point (ip fp : list ascii) :
  all_digits ip → ip ≠ [] → all_digits fp →
  parseFloat (point ip fp) =
  fraction_of false (decimal (ip ++ fp)) (length fp).
Proof.
  intros Hip Hne Hfp. unfold parseFloat, point.
  rewrite point_scan by done.
  rewrite (span_all_digits ip (String "." (string_of_list_ascii fp)) Hip eq_refl).
  pose proof (span_all_digits fp "" Hfp I) as Hspan'.
  rewrite PathFacts.append_nil_r in Hspan'.
  destruct ip as [|d ip]; [done|].
  inversion Hip as [|? ? Hd _]; subst.
  destruct (digit_is_plain d Hd) as (_ & _ & _ & _ & HI).
  change (string_of_list_ascii (d :: ip) +:+ String "." (string_of_list_ascii fp))
    with (String d (string_of_list_ascii ip +:+ String "." (string_of_list_ascii fp))).
  cbn [starts_with]. rewrite Ascii.eqb_sym, HI. cbn [andb]. cbv iota.
  simpl Ascii.eqb. cbv iota. rewrite Hspan'.
  simpl app. cbn iota. cbn [exponent_part].
  rewrite digits_value_decimal
    by (apply Forall_cons; split; [done|]; apply Forall_app; by inversion Hip).
  unfold fraction_of. rewrite Z.sub_0_l.
  destruct fp as [|f fp].
  - simpl. by rewrite Z.mul_1_r.
  - assert ((0 <=? - Z.of_nat (length (f :: fp))) = false) as ->
      by (apply Z.leb_gt; simpl length; lia).
    by rewrite Z.opp_involutive.
Qed.

(** ** Numbers that binary64 holds exactly *)

Lemma half_even_whole (n : Z) : Binary64.half_even n 1 = n.
Proof.
  unfold Binary64.half_even. rewrite Z.div_1_r, Z.mod_1_r. reflexivity.
Qed.

Lemma signed_mul (negative : bool) (a b : Z) :
  signed negative (a * b) = signed negative a * b.
Proof. destruct negative; simpl; lia. Qed.

Lemma Qred_scaled (a k : Z) :
  0 <= k →
  Qred (Qmult (inject_Z (a * 2 ^ k)) (Qpower (inject_Z 2) (- k))) = inject_Z a.
Proof.
  intros Hk. rewrite (Qred_complete _ (inject_Z a)).
  - apply Qcanon.Qred_identity. simpl. apply Z.gcd_1_r.
  - rewrite inject_Z_mult, Zpower_Qpower by done.
    rewrite Qpower_opp. field.
    apply Qpower_not_0. discriminate.
Qed.

(** An integer up to [2 ^ 53] is read as itself. *)
Lemma number_of_exact (negative : bool) (n : Z) :
  0 < n <= 2 ^ 53 → number_of negative n = num_of_Z (signed negative n).
Proof.
  intros [Hpos Hle]. unfold number_of, Binary64.round.
  assert ((n =? 0) = false) as -> by lia.
  assert (Binary64.binade n 1 = Z.log2 n) as ->.
  { unfold Binary64.binade. change (Z.log2 1) with 0. rewrite Z.sub_0_r.
    pose proof (Z.log2_nonneg n). pose proof (Z.log2_spec n Hpos).
    assert ((0 <=? Z.log2 n) = true) as -> by lia.
    assert ((n <? 1 * 2 ^ Z.log2 n) = false) as -> by lia. reflexivity. }
  pose proof (Z.log2_nonneg n) as Hb.
  assert (Z.log2 n <= 53) as Hb'
    by (change 53 with (Z.log2 (2 ^ 53)); by apply Z.log2_le_mono).
  assert (Z.max (Z.log2 n - 52) (-1074) = Z.log2 n - 52) as -> by lia.
  destruct (Z.eq_dec (Z.log2 n) 53) as [E|E].
  - assert (n = 2 ^ 53) as ->.
    { pose proof (Z.log2_spec n Hpos) as [Hlo _]. rewrite E in Hlo. lia. }
    by destruct negative.
  - destruct (0 <=? Z.log2 n - 52) eqn:He.
    + assert (Z.log2 n - 52 = 0) as -> by lia.
      change (1 * 2 ^ 0) with 1. rewrite half_even_whole.
      assert ((n =? 0) = false) as -> by lia.
      assert ((2 ^ 1024 <=? n * 2 ^ 0) = false) as ->.
      { apply Z.leb_gt. change (2 ^ 0) with 1.
        assert (2 ^ 53 < 2 ^ 1024) by (by vm_compute). lia. }
      cbn [andb]. unfold num_of_Z. f_equal.
      replace (signed negative n) with (signed negative n * 2 ^ 0) at 1
        by (change (2 ^ 0) with 1; lia).
      by apply (Qred_scaled _ 0).
    + rewrite half_even_whole.
      assert (0 < 2 ^ (- (Z.log2 n - 52))) by (apply Z.pow_pos_nonneg; lia).
      assert ((n * 2 ^ (- (Z.log2 n - 52)) =? 0) = false) as -> by nia.
      cbn [andb]. unfold num_of_Z. f_equal.
      rewrite signed_mul.
      replace (Z.log2 n - 52) with (- (- (Z.log2 n - 52))) at 2 by lia.
      apply Qred_scaled. lia.
Qed.

(** An integer is read as a whole number, whatever its size. *)
Lemma round_whole (negative : bool) (n : Z) (q : Q) :
  Binary64.round negative n 1 = Fin q → ∃ z, q = inject_Z z.
Proof.
  assert (∀ z, Qred (inject_Z z) = inject_Z z) as Hred
    by (intros z; apply Qcanon.Qred_identity; simpl; apply Z.gcd_1_r).
  unfold Binary64.round.
  destruct (n =? 0).
  { destruct negative; [discriminate|]. intros [= <-]. by exists 0. }
  set (e := Z.max (Binary64.binade n 1 - 52) (-1074)).
  destruct (0 <=? e) eqn:He.
  - set (m := Binary64.half_even n (1 * 2 ^ e)).
    destruct (m =? 0).
    { destruct negative; [discriminate|]. intros [= <-]. by exists 0. }
    destruct (_ && _); [discriminate|]. intros [= <-].
    exists (signed negative m * 2 ^ e).
    rewrite (Qred_complete _ (inject_Z (signed negative m * 2 ^ e)));
      [apply Hred|].
    rewrite inject_Z_mult, Zpower_Qpower by lia. reflexivity.
  - rewrite half_even_whole.
    destruct (_ =? 0).
    { destruct negative; [discriminate|]. intros [= <-]. by exists 0. }
    cbn [andb]. intros [= <-]. exists (signed negative n).
    rewrite signed_mul.
    replace e with (- (- e)) at 2 by lia.
    apply Qred_scaled. lia.
Qed.

Lemma whole_parseInt (s : string) (c : Q) :
  value_of (parseInt s 10) = Some c → ∃ z, whole (parseInt s 10) = Some z.
Proof.
  destruct (parseInt s 10) as [| | |q] eqn:E; try discriminate; intros _.
  - by exists 0.
  - assert (∃ z, q = inject_Z z) as [z ->].
    { revert E. unfold parseInt.
      destruct (strip_sign (trim_start s)) as [neg s1]. simpl.
      destruct (span_digits 10 s1) as [[|d ds] r]; [discriminate|].
      apply round_whole. }
    exists z. unfold whole, whole_of. cbn [value_of].
    rewrite Qcanon.Qred_identity by (simpl; apply Z.gcd_1_r). reflexivity.
Qed.

Lemma number_of_zero (negative : bool) :
  number_of negative 0 = Binary64.zero negative.
Proof. reflexivity. Qed.

Lemma decimal_nonneg (ds : list ascii) : 0 <= decimal ds.
Proof.
  unfold decimal.
  assert (∀ c l, 0 <= position c l) as Hpos
    by (intros c l; induction l; simpl; [|case_match]; lia).
  assert (∀ acc, 0 <= acc →
    0 <= fold_left (λ acc c, 10 * acc + position c decimal_digits) ds acc) as H.
  { induction ds as [|d ds IH]; intros acc Hacc; [done|].
    cbn [fold_left]. apply IH. pose proof (Hpos d decimal_digits). lia. }
  by apply H.
Qed.

(** Some paths and some numbers, evaluated. *)

Example resolve_up : Path.resolve "/home/u" ["/r/a/scripts"; ".."] = "/r/a".
Proof. reflexivity. Qed.
Example resolve_rel : Path.resolve "/home/u" ["scripts"; ".."] = "/home/u".
Proof. reflexivity. Qed.
Example join_docs : Path.join ["/r/a"; "docs"; "index.html"] = "/r/a/docs/index.html".
Proof. reflexivity. Qed.
Example join_dots : Path.join ["/r/./a//b/"; "../.."; "x"] = "/r/x".
Proof. reflexivity. Qed.
Example normalize_rel : Path.normalize "a/../../b/" = "../b/".
Proof. reflexivity. Qed.

Example parseInt_800 : parseInt "800" 10 = num_of_Z 800.
Proof. reflexivity. Qed.
Example parseInt_frac : parseInt "  -12.9px" 10 = num_of_Z (-12).
Proof. reflexivity. Qed.
Example parseInt_e : parseInt "1e3" 10 = num_of_Z 1.
Proof. reflexivity. Qed.
Example parseInt_hex : parseInt "0x1F" 10 = num_of_Z 0.
Proof. reflexivity. Qed.
Example parseInt_hex16 : parseInt "0x1F" 16 = num_of_Z 31.
Proof. reflexivity. Qed.
Example parseInt_abc : parseInt "abc" 10 = NaN.
Proof. reflexivity. Qed.
Example parseInt_minus_zero : parseInt "-0" 10 = NegZero.
Proof. reflexivity. Qed.
Example parseInt_beyond_53_bits :
  parseInt "9007199254740993" 10 = num_of_Z 9007199254740992.
Proof. reflexivity. Qed.
Example parseFloat_1_5 : parseFloat "1.5" = Fin (3 # 2).
Proof. reflexivity. Qed.
Example parseFloat_exp : parseFloat "-.5e1x" = num_of_Z (-5).
Proof. reflexivity. Qed.
Example parseFloat_tenth :
  parseFloat "0.1" = Fin (3602879701896397 # 36028797018963968).
Proof. reflexivity. Qed.
Example parseFloat_one : parseFloat "1.0000000000000001" = num_of_Z 1.
Proof. reflexivity. Qed.
Example parseFloat_overflow : parseFloat "1e400" = Inf false.
Proof. vm_compute. reflexivity. Qed.
Example parseFloat_underflow : parseFloat "-1e-400" = NegZero.
Proof. vm_compute. reflexivity. Qed.
Example parseFloat_dot : parseFloat "." = NaN.
Proof. reflexivity. Qed.
Example parseFloat_trail : parseFloat "2.e" = Fin (2 # 1).
Proof. reflexivity. Qed.
Example parseFloat_inf : parseFloat "-Infinity" = Inf true.
Proof. reflexivity. Qed.

(** ** The picture's file name *)

Lemma length_append (a b : string) :
  String.length (a +:+ b) = (String.length a + String.length b)%nat.
Proof.
  induction a as [|c a IH]; [done|].
  rewrite PathFacts.append_cons. simpl. by rewrite IH.
Qed.

Lemma ends_with_app (suffix pre s : string) :
  (String.length suffix <= String.length s)%nat →
  ends_with suffix (pre +:+ s) = ends_with suffix s.
Proof.
  intros Hlen. induction pre as [|c pre IH]; [done|].
  rewrite PathFacts.append_cons. simpl. rewrite IH.
  destruct (String.eqb suffix (String c (pre +:+ s))) eqn:E; [|done].
  apply String.eqb_eq in E. apply (f_equal String.length) in E.
  simpl in E. rewrite length_append in E. lia.
Qed.

Lemma output_is_png (w : World) : image_type_of (output w) = Png.
Proof.
  destruct (PathFacts.join_file_name (repoRoot w) "aca_map.png")
    as [pre Hpre]; [done..|].
  unfold output. rewrite Hpre. unfold image_type_of.
  by rewrite !ends_with_app by (simpl; lia).
Qed.

(** ** Running the script *)

Lemma poll_total (test : Page → option JsValue) (t : Z) (polls : list Page)
    (e : Error) :
  (∀ p, test p ≠ None) → poll test t polls = Some e → e = TimeoutError t.
Proof.
  intros Htest. induction polls as [|p polls IH]; simpl.
  - congruence.
  - destruct (test p) as [v|] eqn:E; [|by destruct (Htest p)].
    destruct (truthy v); [discriminate | exact IH].
Qed.

Lemma ready_fn_total (p : Page) : page_fn ReadyFn p ≠ None.
Proof.
  unfold page_fn, js_and. destruct (ACA_DB p) as [| |b|n|s|props]; simpl; try done.
  - by destruct b.
  - destruct n as [| | |q]; simpl; try done. by destruct (negb _).
  - by destruct (negb _).
  - by destruct (truthy _).
Qed.

Lemma poll_passes (test : Page → option JsValue) (t : Z) (polls : list Page) :
  (∀ p, test p ≠ None) →
  poll test t polls = None ↔
  Exists (λ p, ∃ v, test p = Some v ∧ truthy v = true) polls.
Proof.
  intros Htest. induction polls as [|p polls IH]; simpl.
  - split; [discriminate | by intros ?%Exists_nil].
  - rewrite Exists_cons.
    destruct (test p) as [v|] eqn:E; [|by destruct (Htest p)].
    destruct (truthy v) eqn:Hv.
    + split; [|done]. intros _. left. by exists v.
    + rewrite IH. split; [by right|].
      intros [(v' & [= <-] & Hv')|H]; [congruence | done].
Qed.

Lemma ready_fn_truthy (p : Page) :
  (∃ v, page_fn ReadyFn p = Some v ∧ truthy v = true) ↔ ready p.
Proof.
  unfold page_fn, js_and, ready.
  assert ((0 <? Z.of_nat (length (querySelectorAll ".iata-tt" p))) = true ↔
          querySelectorAll ".iata-tt" p ≠ []) as Hlen.
  { destruct (querySelectorAll ".iata-tt" p); simpl; [|done].
    split; [discriminate | done]. }
  destruct (ACA_DB p) as [| |b|n|s|props] eqn:Hdb; simpl.
  1-5: split; [|by intros [(? & ? & [=] & _) _]].
  - by intros (v & [= <-] & Hv).
  - by intros (v & [= <-] & Hv).
  - destruct b; simpl; by intros (v & [= <-] & Hv).
  - destruct n as [| | |q]; simpl; try destruct (negb (Qis_zero q)) eqn:Hq; simpl;
      intros (v & [= <-] & Hv); simpl in Hv; congruence.
  - destruct (negb (String.eqb s "")) eqn:Hs; simpl;
      intros (v & [= <-] & Hv); simpl in Hv; congruence.
  - destruct (assoc "latest" props) as [v|] eqn:Hl; simpl.
    + destruct (truthy v) eqn:Hv.
      * split.
        -- intros (v' & [= <-] & Hv'). split; [|by apply Hlen]. by exists props, v.
        -- intros [_ Hq%Hlen]. eexists. split; [reflexivity | exact Hq].
      * split.
        -- intros (v' & [= <-] & Hv'). congruence.
        -- intros [(props' & v' & [= <-] & Hl' & Hv') _]. congruence.
    + split.
      * by intros (v' & [= <-] & Hv').
      * intros [(props' & v' & [= <-] & Hl' & Hv') _]. congruence.
Qed.

#[local] Arguments input : simpl never.
#[local] Arguments output : simpl never.
#[local] Arguments launch_options : simpl never.
#[local] Arguments poll : simpl never.
#[local] Arguments querySelectorAll : simpl never.
#[local] Arguments capture : simpl never.

(** One step of symbolic execution of the monadic script. *)
Ltac exec :=
  unfold mbind, M_bind, mret, M_ret, emit, throw, attempt, existsSync,
    console_error, console_log, process_exit, sleep, write_file, launch,
    newPage, goto, waitForSelector, waitForFunction, evaluate, query,
    screenshot, close, try_catch_finally, polls_of; simpl.

(** Case analysis on where a run of [w] ends: one goal per exit path, in
    the order of the script, with the outcome of every call made on that
    path in the context. *)
Ltac run_cases w :=
  unfold browser_calls, run_trace, run_files, run_status, run, main;
  exec; fold (input_exists w);
  destruct (input_exists w) eqn:Hinput; exec;
  [ destruct (launch_failure w) eqn:Hlaunch; exec;
    [ | destruct (newPage_failure w) eqn:HnewPage; exec;
        [ | destruct (goto_failure w) eqn:Hgoto; exec;
            [ | fold (mount_wait w); destruct (mount_wait w) eqn:Hmount; exec;
                [ | fold (ready_wait w); destruct (ready_wait w) eqn:Hready; exec;
                    [ | fold (tile_wait w); destruct (tile_wait w) eqn:Htile; exec;
                        [ | destruct (evaluate_failure w) eqn:Hevaluate; exec;
                            [ | fold (mapEl w);
                                destruct (mapEl w) as [el|] eqn:HmapEl; exec;
                                [ destruct (screenshot_failure w) eqn:Hshot; exec;
                                  [ | destruct (close_failure w) eqn:Hclose; exec ]
                                | ] ] ] ] ] ] ] ]
  | ].

(** Rewrite with what is known of the outcomes on the path at hand. *)
Ltac outcomes :=
  repeat match goal with
         | H : ?x = _ |- _ => rewrite H in *
         end.

Example good_run :
  run_status Sample.good = Completed ∧
  run_trace Sample.good =
    [ExistsSync "/home/ci/Americas_ACA_map/docs/index.html";
     Launch (launch_options Sample.good); NewPage;
     Goto "file:///home/ci/Americas_ACA_map/docs/index.html" "load" 120000;
     WaitForSelector ".leaflet-container" 60000;
     WaitForFunction ReadyFn 60000; WaitForFunction TilesFn 60000;
     Sleep 600; Evaluate ResizeFn; Sleep 100; Query ".leaflet-container";
     ElementScreenshot (Sample.map_container 2400 1600)
       "/home/ci/Americas_ACA_map/docs/aca_map.png";
     ConsoleLog "Wrote" "/home/ci/Americas_ACA_map/docs/aca_map.png";
     BrowserClose].
Proof. split; reflexivity. Qed.

Ltac not_in_list :=
  rewrite ?not_elem_of_cons; repeat split; try discriminate;
  try apply not_elem_of_nil.

(** A run that ends in [process.exit] has not closed the browser. *)
Lemma exit_skips_close (w : World) (n : Z) :
  run_status w = Exited n → BrowserClose ∉ run_trace w.
Proof. run_cases w; intros H; try discriminate H; not_in_list. Qed.

(** A run whose promise is fulfilled has closed the browser, once, as its
    last call. *)
Lemma completed_closes_last (w : World) :
  run_status w = Completed →
  ∃ evs, run_trace w = evs ++ [BrowserClose] ∧ BrowserClose ∉ evs.
Proof.
  run_cases w; intros H; try discriminate H.
  exists (ExistsSync (input w) :: readiness_events w ++
            [ElementScreenshot el (output w); ConsoleLog "Wrote" (output w)]).
  unfold readiness_events. simpl. split; [reflexivity|]. not_in_list.
Qed.

(** The only write of a run is the capture. *)
Lemma files_after_run (w : World) :
  run_files w = disk w ∨
  ∃ el, mapEl w = Some el ∧
        run_files w = <[output w := Picture (capture
          {| handle_element := el;
             handle_page := {| page_browser :=
               {| browser_viewport := defaultViewport (launch_options w) |} |} |}
          (output w))]> (disk w).
Proof. run_cases w; eauto. Qed.

(** Claim C3.  When docs/index.html does not exist the run ends at once
    with exit code 1: it checks for the file, prints the diagnostic that
    names generate_map.py, and exits.  The file system is left as it was,
    so no picture is produced, and no browser is launched. *)
Theorem missing_input_exits (w : World) :
  disk w !! input w = None →
  run_status w = Exited 1 ∧
  run_trace w =
    [ExistsSync (input w);
     ConsoleError "Missing docs/index.html. Run generate_map.py first." None;
     ProcessExit 1] ∧
  run_files w = disk w ∧
  (∀ opts, Launch opts ∉ run_trace w).
Proof.
  intros Hnone.
  assert (input_exists w = false) as Hin.
  { unfold input_exists. rewrite Hnone. apply bool_decide_eq_false.
    by intros [? ?]. }
  run_cases w; try discriminate Hin.
  do 3 (split; [reflexivity|]). intros opts. not_in_list.
Qed.

Lemma missing_input_exits_witness :
  disk Sample.missing_input !! input Sample.missing_input = None ∧
  run_status Sample.missing_input = Exited 1 ∧
  run_files Sample.missing_input = ∅.
Proof.
  split; [reflexivity|].
  destruct (missing_input_exits Sample.missing_input) as (Hs & _ & Hf & _);
    [reflexivity|].
  split; [exact Hs | exact Hf].
Defined.

(** Claim C1, on a run whose navigation times out.  The claim is that
    the browser launched at the start is closed exactly once on every exit
    path, by the [finally] block.  Here the browser has been launched,
    [page.goto] rejects after 120000 ms, and the [catch] block ends the
    process with [process.exit(1)]: the [finally] block is not reached and
    [browser.close()] is never called. *)
Theorem close_skipped_on_timeout :
  let w := Sample.navigation_timeout in
  run_status w = Exited 1 ∧
  run_trace w =
    [ExistsSync (input w); Launch (launch_options w); NewPage;
     Goto ("file://" +:+ input w) "load" 120000;
     ConsoleError "Screenshot failed:" (Some (TimeoutError 120000));
     ProcessExit 1] ∧
  BrowserClose ∉ run_trace w.
Proof.
  split; [reflexivity|]. split; [reflexivity|].
  by apply (exit_skips_close _ 1).
Qed.

(** Claim C2, on a run whose tile wait times out.  The claim is that such
    a run goes on as if the wait had succeeded.  Here one tile stays
    incomplete at every poll: the wait rejects after its 60000 ms, the run
    exits with code 1, takes no screenshot and writes nothing, whereas the
    same run with complete tiles is fulfilled and writes the picture. *)
Theorem tile_timeout_is_fatal :
  tile_wait Sample.tile_timeout = Some (TimeoutError 60000) ∧
  run_status Sample.tile_timeout = Exited 1 ∧
  run_files Sample.tile_timeout = disk Sample.tile_timeout ∧
  (∀ el path, ElementScreenshot el path ∉ run_trace Sample.tile_timeout) ∧
  run_status Sample.good = Completed ∧
  run_files Sample.good !! output Sample.good =
    Some (picture_of (Sample.map_container 2400 1600) (num_of_Z 2) (output Sample.good)).
Proof.
  split; [reflexivity|]. split; [reflexivity|]. split; [reflexivity|].
  split; [|split; [reflexivity|]].
  - intros el path. vm_compute run_trace. not_in_list.
  - vm_compute. reflexivity.
Qed.

Ltac in_list_inv H :=
  repeat (apply elem_of_cons in H as [H|H]; [try discriminate H|]);
  try (by apply elem_of_nil in H).

Ltac no_dup :=
  repeat (apply NoDup_cons; split; [not_in_list|]); apply NoDup_nil_2.




(** Claim C5.  The browser calls of every run are an initial part of one
    fixed sequence: launch, new page, goto (load, 120000 ms), selector wait
    (60000 ms), readiness wait (60000 ms), tile wait (60000 ms), 600 ms
    sleep, resize, 100 ms sleep, second look-up, screenshot, close; a
    fulfilled run makes all of them.  No call is made twice, so no wait is
    retried; a navigation or a wait that fails ends the run with exit code
    1; and the only way one of the three waits fails is its 60000 ms
    timeout. *)
Theorem strictly_sequential (w : World) :
  browser_calls w `prefix_of` plan w ∧
  NoDup (run_trace w) ∧
  (run_status w = Completed → browser_calls w = plan w) ∧
  (∀ s, s ∈ [Navigate; MapMount; ContentReady; TileLoad] →
        fails w s = true →
        exit_code_of (run_status w) = 1 ∧ run_status w ≠ Completed) ∧
  (∀ e, mount_wait w = Some e ∨ ready_wait w = Some e ∨ tile_wait w = Some e →
        e = TimeoutError 60000).
Proof.
  split; [|split; [|split; [|split]]].
  - unfold plan, readiness_events. run_cases w;
      try (eexists; reflexivity); by exists [].
  - run_cases w; no_dup.
  - unfold plan, readiness_events.
    run_cases w; intros H; try discriminate H. reflexivity.
  - run_cases w; intros s Hs Hf;
      try (by split; [reflexivity | discriminate]).
    all: exfalso; in_list_inv Hs; subst s; unfold fails, failed in Hf; outcomes;
      discriminate Hf.
  - intros e [H|[H|H]]; revert H; apply poll_total; try done.
    apply ready_fn_total.
Qed.

Lemma strictly_sequential_witness :
  browser_calls Sample.good = plan Sample.good ∧
  exit_code_of (run_status Sample.tile_timeout) = 1.
Proof.
  destruct (strictly_sequential Sample.good) as (_ & _ & H & _).
  split; [apply H; reflexivity|].
  destruct (strictly_sequential Sample.tile_timeout) as (_ & _ & _ & H' & _).
  apply (H' TileLoad); [repeat constructor | reflexivity].
Defined.

(** Claim C8.  In a run that gets past the settle delays, the map
    container is looked up again right after them.  When it is not there
    the run reports "Leaflet map element not found." and exits with code 1
    without a screenshot; when it is there the screenshot is taken of that
    element, into the output path, as a PNG, and a successful one leaves
    there a picture of the element's box at the page's scale. *)
Theorem recheck_and_capture (w : World) :
  reaches_recheck w = true →
  (mapEl w = None →
     run_status w = Exited 1 ∧
     run_trace w =
       ExistsSync (input w) :: readiness_events w ++
       [ConsoleError "Screenshot failed:"
          (Some (JsError "Leaflet map element not found."));
        ProcessExit 1] ∧
     run_files w = disk w) ∧
  (∀ el, mapEl w = Some el →
     (∃ rest, run_trace w =
        ExistsSync (input w) :: readiness_events w ++
        ElementScreenshot el (output w) :: rest) ∧
     image_type_of (output w) = Png ∧
     (screenshot_failure w = None →
      run_files w = <[output w := picture_of el (SCALE w) (output w)]> (disk w))).
Proof.
  intros Hreach. unfold reaches_recheck, fails, failed in Hreach.
  split.
  - intros Hnone. unfold readiness_events.
    run_cases w; try discriminate Hreach; try discriminate Hnone. done.
  - intros el0 Hsome. split; [|split; [apply output_is_png|]].
    + unfold readiness_events.
      run_cases w; try discriminate Hreach; try discriminate Hsome;
        injection Hsome as ->; eexists; reflexivity.
    + unfold picture_of.
      run_cases w; intros Hok; try discriminate Hreach; try discriminate Hsome;
        try discriminate Hok; injection Hsome as ->; reflexivity.
Qed.

Lemma recheck_and_capture_witness :
  reaches_recheck Sample.map_removed = true ∧
  mapEl Sample.map_removed = None ∧
  run_status Sample.map_removed = Exited 1 ∧
  mapEl Sample.small_map = Some (Sample.map_container 1200 800) ∧
  run_files Sample.small_map =
    <[output Sample.small_map :=
        picture_of (Sample.map_container 1200 800) (SCALE Sample.small_map)
          (output Sample.small_map)]> (disk Sample.small_map).
Proof.
  split; [reflexivity|]. split; [reflexivity|]. split.
  - destruct (recheck_and_capture Sample.map_removed) as [H _]; [reflexivity|].
    destruct H as [H _]; [reflexivity | exact H].
  - split; [reflexivity|].
    destruct (recheck_and_capture Sample.small_map) as [_ H]; [reflexivity|].
    destruct (H (Sample.map_container 1200 800)) as (_ & _ & H'); [reflexivity|].
    apply H'. reflexivity.
Defined.

(** Against claim C6 as worded: a database object that exposes a
    "latest" field holding [null], with a marker in the document, meets
    the specification's condition at every poll, and yet the wait times
    out and the run exits with code 1. *)
Lemma field_present_is_not_enough :
  Forall (λ p, spec_ready p = true) (ready_polls Sample.stale_db) ∧
  ready_polls Sample.stale_db ≠ [] ∧
  ready_wait Sample.stale_db = Some (TimeoutError 60000) ∧
  run_status Sample.stale_db = Exited 1.
Proof.
  split; [by repeat constructor|]. split; [done|]. split; reflexivity.
Qed.

(** Claim C6, amended.  The readiness wait passes exactly when, at some
    poll within its bound, the database is an object whose "latest"
    property holds a truthy value and at least one marker element is in the
    document.  Otherwise it fails with the 60000 ms timeout, and the run
    ends with exit code 1. *)
Theorem ready_gate (w : World) :
  (ready_wait w = None ↔ Exists ready (ready_polls w)) ∧
  (¬ Exists ready (ready_polls w) →
   ready_wait w = Some (TimeoutError 60000) ∧
   exit_code_of (run_status w) = 1 ∧ run_status w ≠ Completed).
Proof.
  assert (ready_wait w = None ↔ Exists ready (ready_polls w)) as Hiff.
  { unfold ready_wait. rewrite poll_passes by apply ready_fn_total.
    apply Exists_proper; [|done]. intros p. apply ready_fn_truthy. }
  split; [exact Hiff|]. intros Hnot.
  assert (ready_wait w = Some (TimeoutError 60000)) as Hwait.
  { destruct (ready_wait w) as [e|] eqn:E; [|by destruct Hnot; apply Hiff].
    f_equal. revert E. apply poll_total, ready_fn_total. }
  split; [exact Hwait|]. revert Hwait.
  run_cases w; intros Hwait; try discriminate Hwait; by split.
Qed.

Lemma ready_gate_witness :
  ready_wait Sample.good = None ∧
  ready_wait Sample.stale_db = Some (TimeoutError 60000).
Proof.
  split.
  - apply (ready_gate Sample.good). apply Exists_cons_tl, Exists_cons_hd.
    split; [|done]. eexists _, _. repeat split; reflexivity.
  - apply (ready_gate Sample.stale_db).
    intros H. repeat (apply Exists_cons in H as [H|H];
      [by destruct H as [(props & v & [= <-] & [= <-] & Hv) _]|]).
    by apply Exists_nil in H.
Defined.

(** Against claim C7 as worded: a fulfilled run with the default viewport
    (2400 by 1600 at scale 2) whose map container is 1200 by 800 CSS
    pixels writes a picture of 2400 by 1600 pixels, not 4800 by 3200.  And
    with a viewport of 801 by 600 at scale 1.5 that the container fills,
    width times scale is no whole number of pixels. *)
Lemma picture_follows_the_container :
  (run_status Sample.small_map = Completed ∧
   device_px (WIDTH Sample.small_map) (SCALE Sample.small_map) = Some 4800 ∧
   device_px (HEIGHT Sample.small_map) (SCALE Sample.small_map) = Some 3200 ∧
   ∃ img, run_files Sample.small_map !! output Sample.small_map
            = Some (Picture img) ∧
          image_width img = Some 2400 ∧ image_height img = Some 1600) ∧
  (run_status half_pixel = Completed ∧
   mapEl half_pixel = Some (Sample.map_container 801 600) ∧
   WIDTH half_pixel = num_of_Z 801 ∧ SCALE half_pixel = Fin (3 # 2) ∧
   device_px (WIDTH half_pixel) (SCALE half_pixel) = None).
Proof.
  split.
  - do 3 (split; [reflexivity|]). eexists. split; [vm_compute; reflexivity|].
    split; reflexivity.
  - repeat split; reflexivity.
Qed.

Lemma device_px_origin (css scale : Num) (z : Z) :
  device_px css scale = Some z → device_px (num_of_Z 0) scale = Some 0.
Proof.
  unfold device_px. destruct (value_of css); [|done].
  destruct (value_of scale) as [s|]; [|done]. intros _.
  unfold num_of_Z, whole_of. cbn [value_of]. cbv zeta.
  by rewrite (Qred_complete (Qmult (inject_Z 0) s) (inject_Z 0)) by ring.
Qed.

(** The size of a capture that starts at the origin and spans a length
    read by [parseInt]. *)
Lemma pixel_size_origin (s : string) (scale : Num) (z : Z) :
  device_px (parseInt s 10) scale = Some z → 0 < z →
  pixel_size (num_of_Z 0) (parseInt s 10) scale = Some z.
Proof.
  intros Hpx Hpos. unfold pixel_size.
  rewrite (device_px_origin _ _ _ Hpx), Hpx.
  assert (∃ c, value_of (parseInt s 10) = Some c) as [c Hc].
  { unfold device_px in Hpx. destruct (value_of (parseInt s 10)); [|done].
    by eexists. }
  destruct (whole_parseInt s c Hc) as [k ->].
  change (whole (num_of_Z 0)) with (Some 0).
  by apply Z.ltb_lt in Hpos as ->.
Qed.

(** Claim C7, amended.  In a fulfilled run whose map container is the
    viewport (at the origin, with its width and height), the picture at
    the output path is a PNG, and it is (width * scale) pixels wide and
    (height * scale) pixels high whenever these are whole numbers: 800 by
    600 with PNG_W=800, PNG_H=600, PNG_SCALE=1, and 4800 by 3200 with the
    three variables unset. *)
Theorem picture_dimensions (w : World) (container : Element) :
  run_status w = Completed → mapEl w = Some container →
  box_x container = num_of_Z 0 → box_y container = num_of_Z 0 →
  box_width container = WIDTH w → box_height container = HEIGHT w →
  ∃ img, run_files w !! output w = Some (Picture img) ∧
    image_type img = Png ∧
    (∀ pw, device_px (WIDTH w) (SCALE w) = Some pw → 0 < pw →
           image_width img = Some pw) ∧
    (∀ ph, device_px (HEIGHT w) (SCALE w) = Some ph → 0 < ph →
           image_height img = Some ph) ∧
    (env w !! "PNG_W" = Some "800" → env w !! "PNG_H" = Some "600" →
     env w !! "PNG_SCALE" = Some "1" →
     image_width img = Some 800 ∧ image_height img = Some 600) ∧
    (env w !! "PNG_W" = None → env w !! "PNG_H" = None →
     env w !! "PNG_SCALE" = None →
     image_width img = Some 4800 ∧ image_height img = Some 3200).
Proof.
  intros Hdone Hel Hx Hy Hw Hh.
  exists {| image_type := image_type_of (output w);
            image_width :=
              pixel_size (box_x container) (box_width container) (SCALE w);
            image_height :=
              pixel_size (box_y container) (box_height container) (SCALE w);
            image_of := container |}.
  split; [|split; [apply output_is_png|]].
  - revert Hdone. run_cases w; intros Hdone; try discriminate Hdone.
    injection Hel as ->. by rewrite lookup_insert_eq.
  - simpl. rewrite Hx, Hy, Hw, Hh.
    split; [|split; [|split]].
    + intros pw Hpw Hpos. by apply pixel_size_origin.
    + intros ph Hph Hpos. by apply pixel_size_origin.
    + unfold WIDTH, HEIGHT, SCALE. intros -> -> ->.
      split; vm_compute; reflexivity.
    + unfold WIDTH, HEIGHT, SCALE. intros -> -> ->.
      split; vm_compute; reflexivity.
Qed.

Lemma picture_dimensions_witness :
  (∃ img, run_files Sample.overridden !! output Sample.overridden = Some (Picture img) ∧
          image_width img = Some 800 ∧ image_height img = Some 600) ∧
  (∃ img, run_files Sample.good !! output Sample.good = Some (Picture img) ∧
          image_width img = Some 4800 ∧ image_height img = Some 3200).
Proof.
  split.
  - destruct (picture_dimensions Sample.overridden (Sample.map_container 800 600))
      as (img & Hf & _ & _ & _ & H & _); try reflexivity.
    exists img. split; [exact Hf|]. apply H; reflexivity.
  - destruct (picture_dimensions Sample.good (Sample.map_container 2400 1600))
      as (img & Hf & _ & Hw & Hh & _); try reflexivity.
    exists img. split; [exact Hf|].
    split; [by apply Hw | by apply Hh].
Defined.

(** Claim C9.  A variable that is unset or empty gives the default (2400,
    1600, 2).  A non-empty PNG_W or PNG_H is NaN exactly when it does not
    begin (after white space and a sign) with a digit, and a non-empty
    PNG_SCALE is NaN exactly when it does not begin with a decimal literal.
    The three values go into the viewport of the launch options as they
    are, and the launch is made with them.  From digits, a point and
    digits, PNG_W and PNG_H keep the integer before the point (itself up
    to 2 ^ 53, the nearest binary64 value beyond), and PNG_SCALE keeps the
    fraction (the nearest binary64 value to it). *)
Theorem environment_parsing (w : World) :
  (unset_or_empty (env w !! "PNG_W") → WIDTH w = num_of_Z 2400) ∧
  (unset_or_empty (env w !! "PNG_H") → HEIGHT w = num_of_Z 1600) ∧
  (unset_or_empty (env w !! "PNG_SCALE") → SCALE w = num_of_Z 2) ∧
  (∀ s, s ≠ "" →
     (env w !! "PNG_W" = Some s →
      (WIDTH w = NaN ↔ ¬ begins_with_integer s)) ∧
     (env w !! "PNG_H" = Some s →
      (HEIGHT w = NaN ↔ ¬ begins_with_integer s)) ∧
     (env w !! "PNG_SCALE" = Some s →
      (SCALE w = NaN ↔ ¬ begins_with_decimal s))) ∧
  defaultViewport (launch_options w) =
    {| width := WIDTH w; height := HEIGHT w; deviceScaleFactor := SCALE w |} ∧
  (input_exists w = true → Launch (launch_options w) ∈ run_trace w) ∧
  (∀ ip fp, all_digits ip → ip ≠ [] → all_digits fp →
     (env w !! "PNG_W" = Some (point ip fp) →
      WIDTH w = number_of false (decimal ip)) ∧
     (env w !! "PNG_H" = Some (point ip fp) →
      HEIGHT w = number_of false (decimal ip)) ∧
     (env w !! "PNG_SCALE" = Some (point ip fp) →
      SCALE w = fraction_of false (decimal (ip ++ fp)) (length fp)) ∧
     (0 < decimal ip <= 2 ^ 53 →
      number_of false (decimal ip) = num_of_Z (decimal ip))).
Proof.
  assert (∀ s, s ≠ "" → String.eqb s "" = false) as Hne
    by (by intros [|? ?]).
  assert (∀ ip fp, ip ≠ [] → point ip fp ≠ "") as Hpoint
    by (by intros [|? ?] ? ?).
  unfold WIDTH, HEIGHT, SCALE.
  split; [by intros [-> | ->]|].
  split; [by intros [-> | ->]|].
  split; [by intros [-> | ->]|].
  split; [|split; [reflexivity|split]].
  - intros s Hs. split; [|split]; intros ->; simpl; rewrite (Hne s Hs);
      first [apply parseInt_NaN | apply parseFloat_NaN].
  - intros Hin. revert Hin.
    run_cases w; intros Hin; try discriminate Hin; repeat constructor.
  - intros ip fp Hip Hnil Hfp.
    split; [|split; [|split]];
      try (intros ->; simpl; rewrite (Hne _ (Hpoint ip fp Hnil))).
    + by apply parseInt_point.
    + by apply parseInt_point.
    + by apply parseFloat_point.
    + apply (number_of_exact false).
Qed.

Lemma environment_parsing_witness :
  WIDTH Sample.good = num_of_Z 2400 ∧
  ¬ begins_with_integer "wide" ∧
  Launch {| headless := true;
            args := ["--no-sandbox"; "--disable-setuid-sandbox";
                     "--allow-file-access-from-files"];
            defaultViewport :=
              {| width := NaN; height := num_of_Z 600;
                 deviceScaleFactor := Fin (3 # 2) |} |}
    ∈ run_trace Sample.odd_env ∧
  HEIGHT Sample.odd_env = num_of_Z 600 ∧
  SCALE Sample.odd_env = Fin (3 # 2) ∧
  WIDTH long_numbers = num_of_Z 9007199254740992 ∧
  SCALE long_numbers = num_of_Z 1.
Proof.
  destruct (environment_parsing Sample.good) as (Hdefault & _).
  destruct (environment_parsing Sample.odd_env)
    as (_ & _ & _ & Hnan & _ & Hlaunch & Hpoint).
  destruct (environment_parsing long_numbers)
    as (_ & _ & _ & _ & _ & _ & Hlong).
  split; [apply Hdefault; by left|].
  destruct (Hnan "wide") as (Hw & _); [done|].
  split; [by apply Hw|].
  split; [apply Hlaunch; reflexivity|].
  destruct (Hpoint ["6"; "0"; "0"]%char ["9"]%char) as (_ & Hh & _ & Hexact);
    [by repeat constructor..|].
  destruct (Hpoint ["1"]%char ["5"]%char) as (_ & _ & Hs & _);
    [by repeat constructor..|].
  destruct (Hlong ["9"; "0"; "0"; "7"; "1"; "9"; "9"; "2"; "5"; "4"; "7"; "4";
                   "0"; "9"; "9"; "3"]%char ["0"]%char) as (Hbig & _);
    [by repeat constructor..|].
  destruct (Hlong ["1"]%char
                  ["0"; "0"; "0"; "0"; "0"; "0"; "0"; "0"; "0"; "0"; "0"; "0";
                   "0"; "0"; "0"; "1"]%char) as (_ & _ & Hone & _);
    [by repeat constructor..|].
  split.
  { rewrite Hh by reflexivity. apply Hexact. vm_compute.
    split; [reflexivity | discriminate]. }
  split; [rewrite Hs by reflexivity; vm_compute; reflexivity|].
  split; [rewrite Hbig by reflexivity | rewrite Hone by reflexivity];
    vm_compute; reflexivity.
Defined.

(** Claim C10.  With the absolute [__dirname] that Node gives a script,
    the input path is [__dirname/../docs/index.html] and the output path
    [__dirname/../docs/aca_map.png], normalised; two runs of the script
    from the same directory have the same paths, whatever their working
    directory, arguments and environment. *)
Theorem paths_follow_the_script (w : World) :
  Path.isAbsolute (dirname w) = true →
  input w = Path.normalize (dirname w +:+ "/../docs/index.html") ∧
  output w = Path.normalize (dirname w +:+ "/../docs/aca_map.png") ∧
  (∀ w', dirname w' = dirname w →
         input w' = input w ∧ output w' = output w).
Proof.
  intros Habs.
  assert (∀ w', dirname w' = dirname w → ∀ name,
            Path.plain name = true → Path.no_slash name →
            Path.join [repoRoot w'; "docs"; name] =
            Path.normalize
              (dirname w +:+ String "/" (".." +:+ String "/"
                 ("docs" +:+ String "/" name)))) as Hjoin.
  { intros w' Hdir name Hplain Hslash. unfold repoRoot. rewrite Hdir.
    rewrite PathFacts.resolve_parent by done.
    rewrite PathFacts.join_under_root;
      [|apply PathFacts.parent_segs_plain
       |apply PathFacts.parent_segs_no_slash|done..].
    by rewrite PathFacts.normalize_under_parent. }
  split; [exact (Hjoin w eq_refl "index.html" eq_refl eq_refl)|].
  split; [exact (Hjoin w eq_refl "aca_map.png" eq_refl eq_refl)|].
  intros w' Hdir. unfold input, output.
  by rewrite !(Hjoin w' Hdir), !(Hjoin w eq_refl).
Qed.

Lemma paths_follow_the_script_witness :
  input Sample.good = "/home/ci/Americas_ACA_map/docs/index.html" ∧
  output (Sample.with_location (dirname Sample.good) "/tmp/elsewhere"
            Sample.odd_env) =
  output Sample.good.
Proof.
  destruct (paths_follow_the_script Sample.good) as (Hin & _ & Hsame);
    [reflexivity|].
  split; [by rewrite Hin|].
  by apply (Hsame (Sample.with_location (dirname Sample.good) "/tmp/elsewhere"
                     Sample.odd_env)).
Defined.

(** With a relative directory the working directory would count; Node
    hands the script an absolute one. *)
Example relative_directory_depends_on_cwd :
  input (Sample.with_location "scripts" "/a" Sample.good) = "/a/docs/index.html" ∧
  input (Sample.with_location "scripts" "/b" Sample.good) = "/b/docs/index.html".
Proof. split; reflexivity. Qed.

(** * Further properties of the script *)

(** ** Where a run ends *)

(** Work out [first_failure] on the exit path at hand. *)
Ltac first_failure_here :=
  unfold first_failure, all_steps, readiness_steps, fails, failed in *;
  simpl in *; outcomes; simpl in *.

(** The run in which no step fails, up to the closing of the browser. *)
Lemma run_without_failure (w : World) :
  first_failure w = None →
  ∃ el, mapEl w = Some el ∧
    run_trace w =
      ExistsSync (input w) :: readiness_events w ++
      [ElementScreenshot el (output w); ConsoleLog "Wrote" (output w);
       BrowserClose] ∧
    run_files w = <[output w := picture_of el (SCALE w) (output w)]> (disk w) ∧
    run_status w =
      match close_failure w with
      | None => Completed
      | Some e => Rejected e
      end.
Proof.
  unfold readiness_events, picture_of.
  run_cases w; intros Hff; first_failure_here; try discriminate Hff;
    exists el; done.
Qed.

Lemma completed_without_failure (w : World) :
  run_status w = Completed → first_failure w = None ∧ close_failure w = None.
Proof.
  run_cases w; intros H; try discriminate H; first_failure_here; done.
Qed.

(** Property X1.  The promise of the script is fulfilled exactly when no
    step from the precondition to the capture fails and the closing of
    the browser does not fail either. *)
Theorem fulfilled_iff_no_failure (w : World) :
  run_status w = Completed ↔ first_failure w = None ∧ close_failure w = None.
Proof.
  split.
  - apply completed_without_failure.
  - intros [Hff Hclose].
    destruct (run_without_failure w Hff) as (el & _ & _ & _ & ->).
    by rewrite Hclose.
Qed.

Lemma fulfilled_iff_no_failure_witness :
  run_status Sample.good = Completed ∧
  first_failure Sample.tile_timeout = Some TileLoad.
Proof.
  split; [|reflexivity].
  apply (fulfilled_iff_no_failure Sample.good). split; reflexivity.
Defined.

(** Property X2.  [puppeteer.launch] is awaited before the [try] block:
    when it rejects, the [catch] block does not run.  The script's promise
    is rejected with that error and nothing handles it, so that it is Node
    that reports the error and ends the process with code 1; the script
    makes no [console] call and no [process.exit] call, and no file is
    written. *)
Theorem launch_failure_is_not_caught (w : World) (e : Error) :
  input_exists w = true → launch_failure w = Some e →
  run_status w = Rejected e ∧
  exit_code_of (run_status w) = 1 ∧
  run_trace w = [ExistsSync (input w); Launch (launch_options w)] ∧
  console_lines w = [] ∧
  (∀ code, ProcessExit code ∉ run_trace w) ∧
  run_files w = disk w.
Proof.
  intros Hin Hl. revert Hin Hl. unfold console_lines.
  run_cases w; intros Hin Hl; try discriminate Hin; try discriminate Hl.
  injection Hl as ->. do 4 (split; [reflexivity|]).
  split; [|reflexivity]. intros code. not_in_list.
Qed.

Lemma launch_failure_is_not_caught_witness :
  run_status launch_refused =
    Rejected (BrowserError "Failed to launch the browser process") ∧
  run_files launch_refused = disk launch_refused.
Proof.
  destruct (launch_failure_is_not_caught launch_refused
              (BrowserError "Failed to launch the browser process"))
    as (Hs & _ & _ & _ & _ & Hf); [reflexivity..|].
  split; [exact Hs | exact Hf].
Defined.



(** Property X4.  When every step succeeds and [browser.close()] rejects
    in the [finally] block, the script's promise is rejected with that
    error and nothing handles it, so that it is Node that reports the
    error and ends the process with code 1, although the picture is on
    disk and "Wrote" has been printed: that line is the script's only
    [console] call, the [catch] block's report is not made. *)
Theorem close_failure_after_the_picture (w : World) (e : Error) :
  first_failure w = None → close_failure w = Some e →
  run_status w = Rejected e ∧
  exit_code_of (run_status w) = 1 ∧
  console_lines w = [ConsoleLog "Wrote" (output w)] ∧
  ∃ el, mapEl w = Some el ∧
        run_files w !! output w = Some (picture_of el (SCALE w) (output w)).
Proof.
  intros Hff Hclose.
  destruct (run_without_failure w Hff) as (el & Hel & Htrace & Hfiles & Hst).
  rewrite Hst, Hclose. split; [done|]. split; [done|]. split.
  - unfold console_lines. by rewrite Htrace.
  - exists el. by rewrite Hfiles, lookup_insert_eq.
Qed.

Lemma close_failure_after_the_picture_witness :
  run_status close_refused = Rejected (BrowserError "Connection closed") ∧
  console_lines close_refused = [ConsoleLog "Wrote" (output close_refused)].
Proof.
  destruct (close_failure_after_the_picture close_refused
              (BrowserError "Connection closed"))
    as (Hs & _ & Hlines & _); [reflexivity..|].
  split; [exact Hs | exact Hlines].
Defined.

(** Property X5.  The script makes at most one [console] call in a run;
    it makes none exactly when the launch rejects; and it prints "Wrote"
    with the output path exactly when no step before the closing of the
    browser fails.  The script's promise is rejected, so that the error is
    left to Node to report, exactly when the launch rejects or the closing
    of the browser rejects after every step before it has passed. *)
Theorem one_console_line (w : World) :
  (length (console_lines w) <= 1)%nat ∧
  (console_lines w = [] ↔ input_exists w = true ∧ launch_failure w ≠ None) ∧
  (ConsoleLog "Wrote" (output w) ∈ run_trace w ↔ first_failure w = None) ∧
  ((∃ e, run_status w = Rejected e) ↔
   (input_exists w = true ∧ launch_failure w ≠ None) ∨
   (first_failure w = None ∧ close_failure w ≠ None)).
Proof.
  unfold console_lines. split; [|split; [|split]].
  - run_cases w; simpl; lia.
  - run_cases w; split; try done; try (by intros [? ?]).
  - run_cases w; first_failure_here; split; intros H; try done;
      in_list_inv H.
    all: by repeat constructor.
  - run_cases w; first_failure_here; split;
      try (by intros [? ?]); try (by intros [[? ?]|[? ?]]);
      try (by intros _; eexists); intros _.
    all: try (by left); try (by right).
Qed.

Lemma one_console_line_witness :
  console_lines launch_refused = [] ∧
  ConsoleLog "Wrote" (output close_refused) ∈ run_trace close_refused.
Proof.
  destruct (one_console_line launch_refused) as (_ & Hnone & _).
  destruct (one_console_line close_refused) as (_ & _ & Hwrote).
  split; [apply Hnone; by split | apply Hwrote; reflexivity].
Defined.

(** Property X6.  The time spent in [sleep] is 700 ms on a run that gets
    to the second look-up of the container, 600 ms when the resize is the
    first step to fail, and nothing on every other run: no delay is spent
    before the three waits have passed. *)
Theorem settle_time_of_a_run (w : World) :
  settle_time w =
    if reaches_recheck w then 700
    else match first_failure w with
         | Some Resize => 600
         | _ => 0
         end.
Proof.
  unfold settle_time, reaches_recheck.
  run_cases w; first_failure_here; reflexivity.
Qed.

(** ** What a run leaves on disk *)

Lemma input_is_not_output (w : World) : input w ≠ output w.
Proof.
  destruct (PathFacts.join_file_name (repoRoot w) "index.html")
    as [pre Hpre]; [done..|].
  destruct (PathFacts.join_file_name (repoRoot w) "aca_map.png")
    as [pre' Hpre']; [done..|].
  unfold input, output. rewrite Hpre, Hpre'. intros Heq.
  assert (ends_with "index.html" (pre +:+ "index.html") = true) as H1
    by (by rewrite ends_with_app by (simpl; lia)).
  rewrite Heq, ends_with_app in H1 by (simpl; lia). discriminate H1.
Qed.

Lemma other_files_kept (w : World) (path : string) :
  path ≠ output w → run_files w !! path = disk w !! path.
Proof.
  intros Hne. destruct (files_after_run w) as [-> | (el & _ & ->)]; [done|].
  by rewrite lookup_insert_ne.
Qed.

(** Property X7.  Whatever happens, a run changes no file other than
    the one at the output path; the input document in particular is left
    as it was. *)
Theorem only_the_output_is_written (w : World) :
  (∀ path, path ≠ output w → run_files w !! path = disk w !! path) ∧
  run_files w !! input w = disk w !! input w.
Proof.
  split; [apply other_files_kept|]. apply other_files_kept, input_is_not_output.
Qed.

Lemma only_the_output_is_written_witness :
  run_files Sample.good !! "/home/ci/Americas_ACA_map/docs/index.html" =
    Some Document ∧
  run_files Sample.good !! "/home/ci/Americas_ACA_map/scripts/screenshot.js" =
    None.
Proof.
  destruct (only_the_output_is_written Sample.good) as [H Hin].
  split; [exact Hin|]. by rewrite H.
Defined.

Lemma input_exists_after (w : World) : input_exists (after w) = input_exists w.
Proof.
  unfold input_exists.
  change (input (after w)) with (input w).
  change (disk (after w)) with (run_files w).
  by rewrite other_files_kept by apply input_is_not_output.
Qed.

Lemma first_failure_after (w : World) : first_failure (after w) = first_failure w.
Proof.
  unfold first_failure, all_steps, readiness_steps. simpl.
  by rewrite input_exists_after.
Qed.

(** Property X8.  A second run started on the files a fulfilled run
    left, with the browser and the page behaving as before, is fulfilled
    too, makes the same calls and leaves the same files: the earlier
    picture is overwritten by an equal one. *)
Theorem second_run_changes_nothing (w : World) :
  run_status w = Completed →
  run_status (after w) = Completed ∧
  run_files (after w) = run_files w ∧
  run_trace (after w) = run_trace w.
Proof.
  intros [Hff Hclose]%completed_without_failure.
  assert (first_failure (after w) = None) as Hff'
    by (by rewrite first_failure_after).
  destruct (run_without_failure w Hff) as (el & Hel & Htrace & Hfiles & _).
  destruct (run_without_failure (after w) Hff')
    as (el' & Hel' & Htrace' & Hfiles' & Hst').
  change (mapEl (after w)) with (mapEl w) in Hel'.
  assert (el' = el) as -> by congruence.
  split; [|split].
  - rewrite Hst'. change (close_failure (after w)) with (close_failure w).
    by rewrite Hclose.
  - rewrite Hfiles'. change (disk (after w)) with (run_files w).
    rewrite Hfiles. apply insert_insert_eq.
  - by rewrite Htrace', Htrace.
Qed.

Lemma second_run_changes_nothing_witness :
  run_status (after Sample.good) = Completed ∧
  run_files (after Sample.good) = run_files Sample.good.
Proof.
  destruct (second_run_changes_nothing Sample.good) as (Hs & Hf & _);
    [reflexivity|].
  split; [exact Hs | exact Hf].
Defined.

(** ** The gates and the second look-up *)

(** Property X9.  The tile wait passes exactly when, at some poll within
    its bound, every [.leaflet-tile] element is complete; a page with no
    such element at the first poll passes at once. *)
Theorem tile_gate (w : World) :
  (tile_wait w = None ↔ Exists tiles_complete (tile_polls w)) ∧
  (∀ p rest, tile_polls w = p :: rest →
             querySelectorAll ".leaflet-tile" p = [] → tile_wait w = None).
Proof.
  assert (∀ p, (∃ v, page_fn TilesFn p = Some v ∧ truthy v = true) ↔
               tiles_complete p) as Htiles.
  { intros p. unfold page_fn, tiles_complete, querySelectorAll.
    split.
    - intros (v & [= <-] & Hv). simpl in Hv.
      rewrite forallb_forall in Hv. intros el Hin Hcls.
      apply Hv, filter_In. by split.
    - intros H. eexists. split; [reflexivity|]. simpl.
      apply forallb_forall. intros el [Hin Hcls]%filter_In. by apply H. }
  assert (tile_wait w = None ↔ Exists tiles_complete (tile_polls w)) as Hiff.
  { unfold tile_wait. rewrite poll_passes by done.
    apply Exists_proper; [|done]. exact Htiles. }
  split; [exact Hiff|].
  intros p rest Hpolls Hnone. apply Hiff. rewrite Hpolls.
  apply Exists_cons_hd. intros el Hin Hcls.
  assert (In el (querySelectorAll ".leaflet-tile" p)) as Hel
    by (apply filter_In; by split).
  rewrite Hnone in Hel. destruct Hel.
Qed.

Lemma tile_gate_witness :
  tile_wait no_tiles_yet = None ∧ tile_wait Sample.good = None.
Proof.
  destruct (tile_gate no_tiles_yet) as [_ H].
  destruct (tile_gate Sample.good) as [H' _].
  split; [by eapply H|].
  apply H', Exists_cons_hd. intros el Hin Hcls. simpl in Hin.
  destruct Hin as [<-|[<-|[<-|[<-|[]]]]]; done.
Defined.

Lemma head_filter {A : Type} (f : A → bool) (l : list A) (x : A) :
  head (List.filter f l) = Some x ↔
  ∃ l1 l2, l = l1 ++ x :: l2 ∧ f x = true ∧ Forall (λ y, f y = false) l1.
Proof.
  induction l as [|a l IH]; simpl.
  - split; [discriminate|]. intros (l1 & l2 & H & _). by destruct l1.
  - destruct (f a) eqn:Ha; simpl.
    + split.
      * intros [= <-]. exists [], l. by repeat split.
      * intros ([|b l1] & l2 & Heq & Hx & Hl1); simplify_eq/=; [done|].
        inversion Hl1; congruence.
    + rewrite IH. split.
      * intros (l1 & l2 & -> & Hx & Hl1). exists (a :: l1), l2.
        repeat split; [done|]. by constructor.
      * intros ([|b l1] & l2 & Heq & Hx & Hl1); simplify_eq/=; [congruence|].
        exists l1, l2. repeat split; [done|]. by inversion Hl1.
Qed.

Lemma filter_none {A : Type} (f : A → bool) (l : list A) :
  Forall (λ y, f y = false) l → List.filter f l = [].
Proof.
  induction 1 as [|x l Hx _ IH]; [reflexivity|]. simpl. by rewrite Hx.
Qed.

(** Property X10.  When a run takes a screenshot, it is of the first
    element in document order with the class [leaflet-container], and into
    the output path; a fulfilled run leaves there the picture of that
    element.  When a run gets to the second look-up and no element has the
    class, it takes no screenshot and exits with code 1. *)
Theorem first_container_is_captured (w : World) :
  (∀ el path, ElementScreenshot el path ∈ run_trace w →
     path = output w ∧
     ∃ before rest,
       elements (settled_page w) = before ++ el :: rest ∧
       has_class "leaflet-container" el = true ∧
       Forall (λ x, has_class "leaflet-container" x = false) before) ∧
  (run_status w = Completed →
     ∃ img before rest,
       run_files w !! output w = Some (Picture img) ∧
       elements (settled_page w) = before ++ image_of img :: rest ∧
       has_class "leaflet-container" (image_of img) = true ∧
       Forall (λ x, has_class "leaflet-container" x = false) before) ∧
  (reaches_recheck w = true →
     Forall (λ x, has_class "leaflet-container" x = false)
       (elements (settled_page w)) →
     run_status w = Exited 1 ∧
     ∀ el path, ElementScreenshot el path ∉ run_trace w).
Proof.
  assert (∀ el, mapEl w = Some el →
            ∃ before rest,
              elements (settled_page w) = before ++ el :: rest ∧
              has_class "leaflet-container" el = true ∧
              Forall (λ x, has_class "leaflet-container" x = false) before)
    as Hfirst by (intros el; apply head_filter).
  split; [|split].
  - run_cases w; intros el0 path Hin; in_list_inv Hin;
      injection Hin as <- <-; (split; [reflexivity|]); by apply Hfirst.
  - run_cases w; intros Hdone; try discriminate Hdone.
    destruct (Hfirst el eq_refl) as (before & rest & H).
    eexists _, before, rest. rewrite lookup_insert_eq.
    split; [reflexivity | exact H].
  - intros Hreach Hnone.
    assert (mapEl w = None) as Hmap.
    { unfold mapEl. change (querySelectorAll ".leaflet-container" (settled_page w))
        with (List.filter (has_class "leaflet-container")
                (elements (settled_page w))).
      by rewrite (filter_none _ _ Hnone). }
    clear Hnone. unfold reaches_recheck, fails, failed in Hreach.
    run_cases w; try discriminate Hreach; try discriminate Hmap.
    split; [reflexivity|]. intros el0 path. not_in_list.
Qed.

Lemma first_container_is_captured_witness :
  (∃ img, run_files Sample.good !! output Sample.good = Some (Picture img) ∧
          image_of img = Sample.map_container 2400 1600) ∧
  run_status Sample.map_removed = Exited 1.
Proof.
  destruct (first_container_is_captured Sample.good) as (_ & H & _).
  destruct (first_container_is_captured Sample.map_removed) as (_ & _ & H').
  split.
  - destruct H as (img & before & rest & Hf & _); [reflexivity|].
    exists img. split; [exact Hf|].
    vm_compute in Hf. by injection Hf as <-.
  - apply H'; [reflexivity | by repeat constructor].
Defined.

(** Property X11.  The readiness function never throws: when
    [window.ACA_DB] is undefined or null, where reading its [latest] would
    throw, the function stops before that and returns the database value
    itself. *)
Theorem ready_fn_never_throws (p : Page) :
  (∃ v, page_fn ReadyFn p = Some v) ∧
  (get_prop (ACA_DB p) "latest" = None → page_fn ReadyFn p = Some (ACA_DB p)).
Proof.
  split.
  - pose proof (ready_fn_total p). destruct (page_fn ReadyFn p); [eauto|done].
  - unfold page_fn, js_and. by destruct (ACA_DB p).
Qed.

Lemma ready_fn_never_throws_witness :
  get_prop (ACA_DB (Sample.mounted 2400 1600)) "latest" = None ∧
  page_fn ReadyFn (Sample.mounted 2400 1600) = Some Undefined.
Proof.
  split; [reflexivity|].
  by apply (ready_fn_never_throws (Sample.mounted 2400 1600)).
Defined.

(** ** Reading the variables, continued *)

(** Property X12.  A PNG_W or PNG_H made of white space, an optional
    sign, digits, and any text that does not begin with a digit is read as
    the binary64 value nearest to that signed integer, which is the
    integer itself up to 2 ^ 53 in size and a zero of the sign written
    when the digits are zeros: what follows the digits is ignored, and a
    value of zero or below is not replaced by the default. *)
Theorem integer_variables (w : World) (ws : list ascii) (sg : option bool)
    (ds : list ascii) (rest : string) :
  all_white ws → all_digits ds → ds ≠ [] → ends_integer rest →
  (env w !! "PNG_W" = Some (numeral ws sg ds rest) →
   WIDTH w = number_of (is_minus sg) (decimal ds)) ∧
  (env w !! "PNG_H" = Some (numeral ws sg ds rest) →
   HEIGHT w = number_of (is_minus sg) (decimal ds)) ∧
  (0 < decimal ds <= 2 ^ 53 →
   number_of (is_minus sg) (decimal ds) =
   num_of_Z (signed (is_minus sg) (decimal ds))) ∧
  (decimal ds = 0 →
   number_of (is_minus sg) (decimal ds) = Binary64.zero (is_minus sg)) ∧
  0 <= decimal ds.
Proof.
  intros Hws Hds Hne Hrest.
  assert (String.eqb (numeral ws sg ds rest) "" = false) as Hs.
  { destruct (numeral ws sg ds rest) eqn:E; [|done].
    unfold numeral in E.
    do 2 apply PathFacts.append_empty_inv in E.
    destruct ds as [|d ds]; [done | discriminate E]. }
  unfold WIDTH, HEIGHT.
  split; [|split; [|split; [|split]]];
    try (intros ->; simpl; rewrite Hs; by apply parseInt_numeral).
  - apply number_of_exact.
  - intros ->. apply number_of_zero.
  - apply decimal_nonneg.
Qed.

Lemma integer_variables_witness : WIDTH signed_env = num_of_Z (-12).
Proof.
  destruct (integer_variables signed_env [" "]%char (Some true)
              ["1"; "2"]%char "px") as (H & _ & Hexact & _);
    [by repeat constructor..|].
  rewrite H by reflexivity. apply Hexact. vm_compute.
  split; [reflexivity | discriminate].
Defined.

(** Property X13.  A PNG_SCALE made of white space, an optional sign,
    digits, and any text that begins with no digit, point or exponent mark
    is read as the binary64 value nearest to that signed integer, the same
    number [parseInt] reads from that text. *)
Theorem integer_scale (w : World) (ws : list ascii) (sg : option bool)
    (ds : list ascii) (rest : string) :
  all_white ws → all_digits ds → ds ≠ [] → ends_decimal rest →
  env w !! "PNG_SCALE" = Some (numeral ws sg ds rest) →
  SCALE w = number_of (is_minus sg) (decimal ds) ∧
  SCALE w = parseInt (numeral ws sg ds rest) 10.
Proof.
  intros Hws Hds Hne Hrest Henv.
  assert (String.eqb (numeral ws sg ds rest) "" = false) as Hs.
  { destruct (numeral ws sg ds rest) eqn:E; [|done].
    unfold numeral in E.
    do 2 apply PathFacts.append_empty_inv in E.
    destruct ds as [|d ds]; [done | discriminate E]. }
  assert (ends_integer rest) as Hint
    by (destruct rest; [done | by destruct Hrest]).
  unfold SCALE. rewrite Henv. simpl. rewrite Hs.
  by rewrite parseFloat_numeral, parseInt_numeral.
Qed.

Lemma integer_scale_witness : SCALE signed_env = num_of_Z 3.
Proof.
  destruct (integer_scale signed_env [] None ["3"]%char "x") as (H & _);
    [by repeat constructor..| reflexivity |].
  rewrite H. vm_compute. reflexivity.
Defined.

(** ** The paths, continued *)

Lemma normalize_rooted (R : list string) :
  R ≠ [] → Forall (λ seg, Path.plain seg = true) R → Forall Path.no_slash R →
  Path.normalize ("/" +:+ Path.join_segs (rev R)) =
  "/" +:+ Path.join_segs (rev R).
Proof.
  intros Hne Hplain Hslash. apply PathFacts.normalize_absolute; try done.
  - destruct R as [|x R]; [done|]. simpl rev.
    inversion Hplain; inversion Hslash; subst.
    assert (x ≠ "") by (by destruct x).
    rewrite PathFacts.join_segs_snoc. destruct (rev R) as [|y l].
    + rewrite PathFacts.ends_with_slash_app by done.
      by apply PathFacts.no_slash_trailing.
    + change (String "/" x) with ("/" +:+ x).
      rewrite <- !PathFacts.append_assoc.
      rewrite PathFacts.ends_with_slash_app by done.
      by apply PathFacts.no_slash_trailing.
  - change ("/" +:+ Path.join_segs (rev R))
      with ("" +:+ String "/" (Path.join_segs (rev R))).
    rewrite PathFacts.split_app, PathFacts.split_join.
    + simpl. rewrite PathFacts.normalize_segs_plain by (by apply Forall_rev).
      by rewrite rev_involutive, app_nil_r.
    + by apply Forall_rev.
    + intros H. apply (f_equal (@rev string)) in H.
      by rewrite rev_involutive in H.
Qed.

(** Property X14.  With an absolute [__dirname] the input and the output
    path are absolute and in normal form, and the address given to
    [page.goto] begins with [file:///]. *)
Theorem paths_are_absolute (w : World) :
  Path.isAbsolute (dirname w) = true →
  Path.isAbsolute (input w) = true ∧
  Path.isAbsolute (output w) = true ∧
  Path.normalize (input w) = input w ∧
  Path.normalize (output w) = output w ∧
  starts_with "file:///" ("file://" +:+ input w) = true.
Proof.
  intros Habs.
  assert (∀ name, Path.plain name = true → Path.no_slash name →
            Path.join [repoRoot w; "docs"; name] =
            "/" +:+ Path.join_segs
                      (rev (name :: "docs" :: Path.parent_segs (dirname w))))
    as Hjoin.
  { intros name Hplain Hslash. unfold repoRoot.
    rewrite PathFacts.resolve_parent by done.
    by rewrite PathFacts.join_under_root;
      [|apply PathFacts.parent_segs_plain
       |apply PathFacts.parent_segs_no_slash|..]. }
  assert (∀ name, Path.plain name = true → Path.no_slash name →
            Path.normalize (Path.join [repoRoot w; "docs"; name]) =
            Path.join [repoRoot w; "docs"; name]) as Hnorm.
  { intros name Hplain Hslash. rewrite Hjoin by done.
    apply normalize_rooted; [done| |].
    - do 2 (constructor; [done|]). apply PathFacts.parent_segs_plain.
    - do 2 (constructor; [done|]). apply PathFacts.parent_segs_no_slash. }
  unfold input, output.
  split; [by rewrite Hjoin|]. split; [by rewrite Hjoin|].
  split; [by apply Hnorm|]. split; [by apply Hnorm|].
  by rewrite Hjoin.
Qed.

Lemma paths_are_absolute_witness :
  Path.isAbsolute (input Sample.good) = true ∧
  Path.normalize (output Sample.good) = output Sample.good.
Proof.
  destruct (paths_are_absolute Sample.good) as (H & _ & _ & H' & _);
    [reflexivity|].
  split; [exact H | exact H'].
Defined.
